(** * steadycache: the caching decorator of [steadycache/cache.py]

    A shallow embedding of [mangle], [create_cache] / [cache] / [decorate],
    [update_cache] and [wrapped], with the properties of the specification
    stated against it.

    Conventions of the embedding.
    - Python values are the JSON-shaped values of [pyval]; a [dict] is an
      association list in insertion order, which is the iteration order of
      a Python 3.7+ dict and the order [json.dumps] writes.
    - A float is an exact rational: [time.time()], ages and time-to-live
      values are compared and subtracted exactly (no rounding, no NaN).
    - A Python [str] is a [string] whose characters are code points < 256.
    - Effects are explicit: a computation of type [M A] takes the [world]
      (store state, clock, state of the wrapped function, started threads,
      log of the calls made) and returns an [outcome] and the new world. *)

From Stdlib Require Import ZArith QArith List Bool Ascii String DecimalString Lia Lqa.
From stdpp Require Import base option list strings gmap.

Import ListNotations.
Open Scope string_scope.
Open Scope Z_scope.

#[local] Set Warnings "-register-all,-clear-no-such-hyp".

(** ** Python values *)

Inductive number : Type :=
  | Int (z : Z)
  | Float (q : Q).

Inductive pyval : Type :=
  | PNone
  | PBool (b : bool)
  | PNum (n : number)
  | PStr (s : string)
  | PList (l : list pyval)
  | PDict (d : list (string * pyval)).

Abbreviation pydict := (list (string * pyval)).

(** Exceptions that the modelled code can raise or let through. *)
Inductive exn : Type :=
  | TypeError
  | AttributeError
  | KeyError (k : string)
  | RuntimeError
  | CacheNameClashException
  | StoreError (msg : string)      (* raised by the cache store *)
  | UserError (msg : string).      (* raised by the wrapped function *)

Inductive outcome (A : Type) : Type :=
  | Ok (a : A)
  | Raise (e : exn).
Arguments Ok {A} a.
Arguments Raise {A} e.

Definition num_val (n : number) : Q :=
  match n with
  | Int z => inject_Z z
  | Float q => q
  end.

Definition num_is_zero (n : number) : bool := Qeq_bool (num_val n) 0.

(** [2 * expires]: int times int is an int, anything else a float. *)
Definition num_mul (a b : number) : number :=
  match a, b with
  | Int x, Int y => Int (x * y)
  | _, _ => Float (num_val a * num_val b)
  end.

(** Python truthiness, [bool(v)]. *)
Definition truthy (v : pyval) : bool :=
  match v with
  | PNone => false
  | PBool b => b
  | PNum n => negb (num_is_zero n)
  | PStr s => negb (String.eqb s EmptyString)
  | PList l => negb (bool_decide (l = []))
  | PDict d => match d with [] => false | _ => true end
  end.

(** A value usable as an operand of [-]: numbers, and [bool], which is a
    subclass of [int]. *)
Definition as_number (v : pyval) : option number :=
  match v with
  | PNum n => Some n
  | PBool b => Some (Int (if b then 1 else 0))
  | _ => None
  end.

(** [now - v] where [now] is the float returned by [time.time()]. *)
Definition float_sub (now : Q) (v : pyval) : outcome Q :=
  match as_number v with
  | Some n => Ok (now - num_val n)%Q
  | None => Raise TypeError
  end.

Definition Qgt_bool (a b : Q) : bool := negb (Qle_bool a b).
Definition Qlt_bool (a b : Q) : bool := negb (Qle_bool b a).

(** Lookup in a dict: the first binding of the key. *)
Fixpoint dict_get (d : pydict) (k : string) : option pyval :=
  match d with
  | [] => None
  | (k', v) :: d' => if String.eqb k' k then Some v else dict_get d' k
  end.

Definition dict_has (d : pydict) (k : string) : bool :=
  match dict_get d k with Some _ => true | None => false end.

(** [v.get(k, default)]: only a dict has the method. *)
Definition py_get (v : pyval) (k : string) (default : pyval) : outcome pyval :=
  match v with
  | PDict d => Ok (match dict_get d k with Some x => x | None => default end)
  | _ => Raise AttributeError
  end.

(** [v[k]] with a string key. *)
Definition py_index (v : pyval) (k : string) : outcome pyval :=
  match v with
  | PDict d => match dict_get d k with Some x => Ok x | None => Raise (KeyError k) end
  | _ => Raise TypeError
  end.

(** ** [json.dumps] *)

Definition hex_digit (n : N) : ascii :=
  ascii_of_N (if (n <? 10)%N then 48 + n else 87 + n)%N.

(** One character of a string literal, with [ensure_ascii=True]: the
    quote, the backslash and everything outside [' '..'~'] are escaped. *)
Definition escape_char (c : ascii) : string :=
  let n := N_of_ascii c in
  if (n =? 34)%N then "\" ++ String c EmptyString
  else if (n =? 92)%N then "\\"
  else if (n =? 10)%N then "\n"
  else if (n =? 13)%N then "\r"
  else if (n =? 9)%N then "\t"
  else if (n =? 8)%N then "\b"
  else if (n =? 12)%N then "\f"
  else if ((32 <=? n) && (n <=? 126))%N then String c EmptyString
  else "\u00" ++ String (hex_digit (n / 16)) (String (hex_digit (n mod 16)) EmptyString).

Fixpoint escape_string (s : string) : string :=
  match s with
  | EmptyString => EmptyString
  | String c s' => escape_char c ++ escape_string s'
  end.

Definition dumps_str (s : string) : string :=
  String (ascii_of_N 34) (escape_string s) ++ String (ascii_of_N 34) EmptyString.

Definition dumps_int (z : Z) : string := NilZero.string_of_int (Z.to_int z).

(** [", ".join(parts)] *)
Fixpoint join (sep : string) (parts : list string) : string :=
  match parts with
  | [] => EmptyString
  | [p] => p
  | p :: ps => p ++ sep ++ join sep ps
  end.

Section Dumps.
(** [float.__repr__], which [json.dumps] uses for floats, is not
    modelled: it is a parameter of the encoder. *)
Variable float_repr : Q -> string.

Fixpoint json_dumps (v : pyval) : string :=
  match v with
  | PNone => "null"
  | PBool true => "true"
  | PBool false => "false"
  | PNum (Int z) => dumps_int z
  | PNum (Float q) => float_repr q
  | PStr s => dumps_str s
  | PList l => "[" ++ join ", " (map json_dumps l) ++ "]"
  | PDict d =>
      "{" ++ join ", " (map (fun kv => dumps_str (fst kv) ++ ": " ++ json_dumps (snd kv)) d) ++ "}"
  end.
End Dumps.

(** ** [inspect.getcallargs] *)

(** The signature of a function with positional-or-keyword parameters;
    [sig_defaults] are the defaults of the last parameters. *)
Record signature : Type := {
  sig_args : list string;
  sig_defaults : list pyval }.

Definition name_in (k : string) (names : list string) : bool :=
  existsb (String.eqb k) names.

(** [for kw, value in named.items(): ...] *)
Fixpoint bind_named (params : list string) (named : pydict) (arg2value : pydict)
  : outcome pydict :=
  match named with
  | [] => Ok arg2value
  | (kw, value) :: rest =>
      if negb (name_in kw params) then Raise TypeError       (* unexpected keyword *)
      else if dict_has arg2value kw then Raise TypeError     (* multiple values *)
      else bind_named params rest (arg2value ++ [(kw, value)])
  end.

(** [for i, arg in enumerate(args[num_args - num_defaults:]): ...] *)
Fixpoint bind_defaults (params : list string) (defaults : list pyval) (arg2value : pydict)
  : pydict :=
  match params, defaults with
  | arg :: ps, dv :: ds =>
      bind_defaults ps ds (if dict_has arg2value arg then arg2value else arg2value ++ [(arg, dv)])
  | _, _ => arg2value
  end.

Definition getcallargs (sg : signature) (positional : list pyval) (named : pydict)
  : outcome pydict :=
  let args := sig_args sg in
  let num_pos := length positional in
  let num_args := length args in
  let num_defaults := length (sig_defaults sg) in
  let n := Nat.min num_pos num_args in
  let arg2value := combine (firstn n args) (firstn n positional) in
  match bind_named args named arg2value with
  | Raise e => Raise e
  | Ok arg2value =>
      if (num_args <? num_pos)%nat then Raise TypeError      (* too many positional *)
      else if (num_pos <? num_args)%nat then
        let req := firstn (num_args - num_defaults) args in
        if forallb (dict_has arg2value) req
        then Ok (bind_defaults (skipn (num_args - num_defaults) args) (sig_defaults sg) arg2value)
        else Raise TypeError                                 (* missing argument *)
      else Ok arg2value
  end.

(** ** [mangle] *)

Section Mangle.
Variable float_repr : Q -> string.

(** The key is ["@" + fname + "_" + json.dumps(getcallargs(f, *args, **kwargs))]:
    the mapping is written in its own order.  (The sorted list of items
    is only printed.) *)
Definition mangle (fname : string) (sg : signature) (args : list pyval) (kwargs : pydict)
  : outcome string :=
  match getcallargs sg args kwargs with
  | Raise e => Raise e
  | Ok arg2value => Ok ("@" ++ fname ++ "_" ++ json_dumps float_repr (PDict arg2value))
  end.
End Mangle.

(** ** The cache store, the wrapped function and the world *)

(** The lock object returned by
    [cache_store.lock(name, timeout=..., blocking_timeout=..., thread_local=...)]. *)
Record lock : Type := {
  lock_name : string;
  lock_timeout : number;
  lock_blocking_timeout : Q;
  lock_thread_local : bool }.

(** "An object supporting get(), set(), and lock()": the operations act on
    the store's own state [σ]; each may raise.  [cs_get] returns [None]
    for a missing key; [cs_acquire] is [lock.acquire()], [cs_release] is
    [lock.release()]. *)
Class CacheStore (σ : Type) : Type := {
  cs_get : string -> σ -> outcome (option string) * σ;
  cs_set : string -> string -> σ -> outcome unit * σ;
  cs_acquire : lock -> σ -> outcome bool * σ;
  cs_release : lock -> σ -> outcome unit * σ }.

(** The decorated function [f]: [f_body] receives the bound arguments, the
    state [U] the function works on and the clock at the call; it returns
    its outcome, the new state and the clock at its return. *)
Record pyfunction (U : Type) : Type := {
  f_module : string;
  f_name : string;
  f_sig : signature;
  f_body : pydict -> U -> Q -> outcome pyval * U * Q }.
Arguments f_module {U} _.
Arguments f_name {U} _.
Arguments f_sig {U} _.
Arguments f_body {U} _ _ _ _.

(** A started background thread: [update_cache(f, lock, *args, **kwargs)]. *)
Record task : Type := {
  task_lock : lock;
  task_args : list pyval;
  task_kwargs : pydict }.

(** What the decorator does to its environment, in order. *)
Inductive event : Type :=
  | EGet (key : string)                          (* cache_store.get(key) *)
  | ESet (key value : string)                    (* cache_store.set(key, value) *)
  | EAcquire (lk : lock)                         (* lock.acquire() *)
  | ERelease (lk : lock)                         (* lock.release() *)
  | ECall (args : list pyval) (kwargs : pydict)  (* f applied to *args, **kwargs *)
  | EStart (t : task).                           (* threading.Thread(...).start() *)

Record world (σ U : Type) : Type := {
  w_store : σ;
  w_user : U;
  w_now : Q;                 (* what time.time() returns *)
  w_thread_slots : nat;      (* threads the process can still start *)
  w_threads : list task;     (* started, not yet run *)
  w_log : list event }.
Arguments w_store {σ U} _.
Arguments w_user {σ U} _.
Arguments w_now {σ U} _.
Arguments w_thread_slots {σ U} _.
Arguments w_threads {σ U} _.
Arguments w_log {σ U} _.

Module Effect.
Section Monad.
Context {σ U : Type}.

Definition M (A : Type) : Type := world σ U -> outcome A * world σ U.

Definition ret {A} (a : A) : M A := fun w => (Ok a, w).

Definition raise {A} (e : exn) : M A := fun w => (Raise e, w).

Definition bind {A B} (m : M A) (k : A -> M B) : M B :=
  fun w =>
    match m w with
    | (Ok a, w') => k a w'
    | (Raise e, w') => (Raise e, w')
    end.

(** A pure computation that may raise. *)
Definition lift {A} (o : outcome A) : M A := fun w => (o, w).

(** [try: body finally: final].  The outcome is the body's, unless
    [final] raises. *)
Definition try_finally {A} (body : M A) (final : M unit) : M A :=
  fun w =>
    match body w with
    | (r, w') =>
        match final w' with
        | (Ok _, w'') => (r, w'')
        | (Raise e, w'') => (Raise e, w'')
        end
    end.

(** [try: body except Exception as e: handler(e)] *)
Definition try_except {A} (body : M A) (handler : exn -> M A) : M A :=
  fun w =>
    match body w with
    | (Ok a, w') => (Ok a, w')
    | (Raise e, w') => handler e w'
    end.

Definition log (e : event) : M unit :=
  fun w =>
    (Ok tt, {| w_store := w_store w; w_user := w_user w; w_now := w_now w;
               w_thread_slots := w_thread_slots w; w_threads := w_threads w;
               w_log := w_log w ++ [e] |}).

(** Run an operation of the store on the store's state. *)
Definition on_store {A} (op : σ -> outcome A * σ) : M A :=
  fun w =>
    match op (w_store w) with
    | (r, s') =>
        (r, {| w_store := s'; w_user := w_user w; w_now := w_now w;
               w_thread_slots := w_thread_slots w; w_threads := w_threads w;
               w_log := w_log w |})
    end.

(** [time.time()] *)
Definition time_time : M Q := fun w => (Ok (w_now w), w).
End Monad.
Arguments M : clear implicits.
End Effect.
Import Effect.

Notation "'let!' x ':=' e 'in' k" := (bind e (fun x => k))
  (at level 10, x name, e at level 100, k at level 200).
Notation "e1 '>>' e2" := (bind e1 (fun _ => e2))
  (at level 61, left associativity).

(** The configuration a call of [cache(...)] closes over. *)
Record config : Type := {
  expires : number;
  prefix : string;
  bg_caching : bool;
  stale : number }.

(** [if not stale: stale = 2 * expires], where [stale] is [None] or a number. *)
Definition stale_or_default (stale : option number) (expires : number) : number :=
  match stale with
  | None => num_mul (Int 2) expires
  | Some s => if num_is_zero s then num_mul (Int 2) expires else s
  end.

(** [create_cache(cache_store, prefix)] returns [cache]; a parameter of
    [cache] that the caller leaves out is [None] here and takes its default:
    [expires=5], [prefix=prefix] of [create_cache], [bg_caching=False],
    [stale=None]. *)
Definition cache (create_prefix : string)
    (expires : option number) (prefix : option string)
    (bg_caching : option bool) (stale : option number) : config :=
  let expires := default (Int 5) expires in
  {| expires := expires;
     prefix := default create_prefix prefix;
     bg_caching := default false bg_caching;
     stale := stale_or_default stale expires |}.

(** The derived name: [prefix + "_" + f.__module__ + "_" + f.__name__]. *)
Definition derived_name {U} (cfg : config) (f : pyfunction U) : string :=
  prefix cfg ++ "_" ++ f_module f ++ "_" ++ f_name f.

Section Engine.
Context {σ U : Type} {cs : CacheStore σ}.
Local Abbreviation M := (Effect.M σ U).
Variable float_repr : Q -> string.
(** [json.loads]: [None] when it raises. *)
Variable json_loads : string -> option pyval.

Definition store_get (key : string) : M (option string) :=
  log (EGet key) >> on_store (cs_get key).
Definition store_set (key value : string) : M unit :=
  log (ESet key value) >> on_store (cs_set key value).
Definition lock_acquire (lk : lock) : M bool :=
  log (EAcquire lk) >> on_store (cs_acquire lk).
Definition lock_release (lk : lock) : M unit :=
  log (ERelease lk) >> on_store (cs_release lk).

(** [f applied to *args, **kwargs]: the arguments are bound as [getcallargs]
    binds them, then the body runs on the function's state and clock. *)
Definition call_f (f : pyfunction U) (args : list pyval) (kwargs : pydict) : M pyval :=
  log (ECall args kwargs) >>
  let! bound := lift (getcallargs (f_sig f) args kwargs) in
  fun w =>
    match f_body f bound (w_user w) (w_now w) with
    | (r, u', t') =>
        (r, {| w_store := w_store w; w_user := u'; w_now := t';
               w_thread_slots := w_thread_slots w; w_threads := w_threads w;
               w_log := w_log w |})
    end.

(** [threading.Thread(target=update_cache, args=(f, lock) + args,
    kwargs=kwargs).start()]; [start] raises [RuntimeError] when no
    thread can be started. *)
Definition thread_start (t : task) : M unit :=
  fun w =>
    match w_thread_slots w with
    | O => (Raise RuntimeError, w)
    | S n =>
        (Ok tt, {| w_store := w_store w; w_user := w_user w; w_now := w_now w;
                   w_thread_slots := n; w_threads := w_threads w ++ [t];
                   w_log := w_log w ++ [EStart t] |})
    end.

(** [try: cached_result = json.loads(cached_result) except: cached_result = {}];
    [json.loads(None)] raises. *)
Definition loads_or_empty (raw : option string) : pyval :=
  match raw with
  | None => PDict []
  | Some s => match json_loads s with Some v => v | None => PDict [] end
  end.

(** [now - cached_result.get('timestamp', 0) if cached_result else now] *)
Definition age_of (cached_result : pyval) (now : Q) : outcome Q :=
  if truthy cached_result then
    match py_get cached_result "timestamp" (PNum (Int 0)) with
    | Ok ts => float_sub now ts
    | Raise e => Raise e
    end
  else Ok now.

(** [bg_caching and cached_result and now - cached_result['timestamp'] < stale] *)
Definition bg_condition (cfg : config) (cached_result : pyval) (now : Q) : outcome bool :=
  if bg_caching cfg && truthy cached_result then
    match py_index cached_result "timestamp" with
    | Ok ts =>
        match float_sub now ts with
        | Ok d => Ok (Qlt_bool d (num_val (stale cfg)))
        | Raise e => Raise e
        end
    | Raise e => Raise e
    end
  else Ok false.

Section Decorated.
Variable cfg : config.
Variable f : pyfunction U.

Definition fname : string := derived_name cfg f.

(** [update_cache] is declared with the parameters [f, lock, *args,
    **kwargs] and is called with [f] and [lock] by position and the
    keywords of the call after them: a keyword named [f] or [lock] is a
    second value for that parameter. *)
Definition update_cache_binds (kwargs : pydict) : bool :=
  negb (dict_has kwargs "f") && negb (dict_has kwargs "lock").

(** The call of [update_cache] with the function, the lock and the
    arguments of the call, by the caller or as the target of a thread:
    when the keywords do not bind, [TypeError] is raised before the body
    is entered, outside its [try ... finally]. *)
Definition update_cache (lk : lock) (args : list pyval) (kwargs : pydict) : M pyval :=
  if update_cache_binds kwargs then
    try_finally
      (let! result := call_f f args kwargs in
       let! key := lift (mangle float_repr fname (f_sig f) args kwargs) in
       let! t := time_time in
       store_set key
         (json_dumps float_repr (PDict [("timestamp", PNum (Float t)); ("result", result)])) >>
       ret result)
      (lock_release lk)
  else raise TypeError.

Definition the_lock : lock :=
  {| lock_name := "__lock_" ++ fname;
     lock_timeout := expires cfg;
     lock_blocking_timeout := 1 # 10;
     lock_thread_local := false |}.

Definition wrapped (args : list pyval) (kwargs : pydict) : M pyval :=
  let! key := lift (mangle float_repr fname (f_sig f) args kwargs) in
  let! raw := store_get key in
  let cached_result := loads_or_empty raw in
  let! now := time_time in
  let! age := lift (age_of cached_result now) in
  if negb (truthy cached_result) || Qgt_bool age (num_val (expires cfg)) then
    let lk := the_lock in
    let! acquired := lock_acquire lk in
    if acquired then
      let! bg := lift (bg_condition cfg cached_result now) in
      if bg then
        try_except
          (thread_start {| task_lock := lk; task_args := args; task_kwargs := kwargs |})
          (fun e => lock_release lk >> raise e) >>
        lift (py_index cached_result "result")
      else
        update_cache lk args kwargs
    else
      if negb (bg_caching cfg) || negb (truthy cached_result) then
        call_f f args kwargs
      else
        lift (py_index cached_result "result")
  else
    lift (py_index cached_result "result").

(** The body of a started thread, the call of [update_cache] on the
    thread's arguments: its outcome is dropped, an exception (of the call
    or of the body) ends the thread and reaches nobody. *)
Definition run_thread (t : task) : M unit :=
  fun w =>
    match update_cache (task_lock t) (task_args t) (task_kwargs t) w with
    | (_, w') => (Ok tt, w')
    end.
End Decorated.

(** [decorate(f)] on the module-level dict [decorated]. *)
Definition decorate (cfg : config) (f : pyfunction U) (decorated : gmap string bool)
  : outcome (list pyval -> pydict -> M pyval) * gmap string bool :=
  let fname := derived_name cfg f in
  if default false (decorated !! fname)
  then (Raise CacheNameClashException, decorated)
  else (Ok (wrapped cfg f), <[fname := true]> decorated).
End Engine.

(** ** Two cache stores *)

(** An in-memory store in the manner of the tests' [MockCache]: a dict of
    values and the names of the locks that are held.  [acquire] fails on a
    held lock (its holder neither releases it nor lets it time out during
    the wait), [release] of a lock that is not held raises, as
    [MockLock.release] does. *)
Record mem_store : Type := {
  ms_data : gmap string string;
  ms_held : gset string }.

#[export] Instance mem_cache_store : CacheStore mem_store := {|
  cs_get := fun key s => (Ok (ms_data s !! key), s);
  cs_set := fun key value s =>
    (Ok tt, {| ms_data := <[key := value]> (ms_data s); ms_held := ms_held s |});
  cs_acquire := fun lk s =>
    if bool_decide (lock_name lk ∈ ms_held s) then (Ok false, s)
    else (Ok true, {| ms_data := ms_data s; ms_held := {[lock_name lk]} ∪ ms_held s |});
  cs_release := fun lk s =>
    if bool_decide (lock_name lk ∈ ms_held s)
    then (Ok tt, {| ms_data := ms_data s; ms_held := ms_held s ∖ {[lock_name lk]} |})
    else (Raise (StoreError "not held"), s) |}.

(** A store that cannot be reached: every operation raises. *)
#[export] Instance down_cache_store : CacheStore unit := {|
  cs_get := fun _ s => (Raise (StoreError "timeout"), s);
  cs_set := fun _ _ s => (Raise (StoreError "timeout"), s);
  cs_acquire := fun _ s => (Raise (StoreError "timeout"), s);
  cs_release := fun _ s => (Raise (StoreError "timeout"), s) |}.

(** ** A reader and a float printer for the examples

    [json_loads_lite] reads the JSON documents the examples store: no
    exponents, no [\u] escapes, no [NaN] or [Infinity]; on these documents
    it returns what [json.loads] returns.  [float_repr_lite] prints a
    float that has at most six decimals. *)
Module Lite.

Definition is_ws (c : ascii) : bool :=
  let n := N_of_ascii c in ((n =? 32) || (n =? 9) || (n =? 10) || (n =? 13))%N.

Fixpoint skip_ws (s : string) : string :=
  match s with
  | String c s' => if is_ws c then skip_ws s' else s
  | EmptyString => s
  end.

Definition digit_of (c : ascii) : option Z :=
  let n := N_of_ascii c in
  if ((48 <=? n) && (n <=? 57))%N then Some (Z.of_N n - 48) else None.

(** Reads digits: the value so far, how many were read, and the rest. *)
Fixpoint take_digits (s : string) (acc : Z) (count : nat) : Z * nat * string :=
  match s with
  | String c s' =>
      match digit_of c with
      | Some d => take_digits s' (10 * acc + d) (S count)
      | None => (acc, count, s)
      end
  | EmptyString => (acc, count, s)
  end.

Definition parse_unsigned (s : string) : option (number * string) :=
  match take_digits s 0 O with
  | (_, O, _) => None
  | (ip, _, String "." s') =>
      match take_digits s' 0 O with
      | (_, O, _) => None
      | (fp, k, rest) =>
          Some (Float (Qred (Qmake (ip * 10 ^ Z.of_nat k + fp) (Z.to_pos (10 ^ Z.of_nat k)))), rest)
      end
  | (ip, _, rest) => Some (Int ip, rest)
  end.

Definition num_neg (n : number) : number :=
  match n with
  | Int z => Int (- z)
  | Float q => Float (Qred (- q))
  end.

Definition parse_number (s : string) : option (number * string) :=
  match s with
  | String "-" s' =>
      match parse_unsigned s' with
      | Some (n, rest) => Some (num_neg n, rest)
      | None => None
      end
  | _ => parse_unsigned s
  end.

(** The characters of a string literal after its opening quote. *)
Fixpoint parse_chars (s : string) : option (string * string) :=
  match s with
  | EmptyString => None
  | String c s' =>
      if (N_of_ascii c =? 34)%N then Some (EmptyString, s')
      else if (N_of_ascii c =? 92)%N then
        match s' with
        | String e s'' =>
            let n := N_of_ascii e in
            let decoded :=
              if (n =? 34)%N then Some e
              else if (n =? 92)%N then Some e
              else if (n =? 47)%N then Some e
              else if (n =? 110)%N then Some (ascii_of_N 10)
              else if (n =? 114)%N then Some (ascii_of_N 13)
              else if (n =? 116)%N then Some (ascii_of_N 9)
              else if (n =? 98)%N then Some (ascii_of_N 8)
              else if (n =? 102)%N then Some (ascii_of_N 12)
              else None in
            match decoded, parse_chars s'' with
            | Some d, Some (body, rest) => Some (String d body, rest)
            | _, _ => None
            end
        | EmptyString => None
        end
      else
        match parse_chars s' with
        | Some (body, rest) => Some (String c body, rest)
        | None => None
        end
  end.

(** [d[k] = v] on a dict: a key that is present keeps its place. *)
Fixpoint dict_set (d : pydict) (k : string) (v : pyval) : pydict :=
  match d with
  | [] => [(k, v)]
  | (k', v') :: d' => if String.eqb k' k then (k', v) :: d' else (k', v') :: dict_set d' k v
  end.

Definition strip_prefix (p s : string) : option string :=
  if String.prefix p s then Some (String.substring (String.length p) (String.length s - String.length p) s)
  else None.

Fixpoint parse_value (fuel : nat) (s : string) : option (pyval * string) :=
  match fuel with
  | O => None
  | S fuel =>
      match skip_ws s with
      | String "[" s' =>
          match skip_ws s' with
          | String "]" rest => Some (PList [], rest)
          | _ => parse_elems fuel s' []
          end
      | String "{" s' =>
          match skip_ws s' with
          | String "}" rest => Some (PDict [], rest)
          | _ => parse_members fuel s' []
          end
      | String c s' as s0 =>
          if (N_of_ascii c =? 34)%N then
            match parse_chars s' with
            | Some (body, rest) => Some (PStr body, rest)
            | None => None
            end
          else
            match strip_prefix "null" s0, strip_prefix "true" s0, strip_prefix "false" s0 with
            | Some rest, _, _ => Some (PNone, rest)
            | _, Some rest, _ => Some (PBool true, rest)
            | _, _, Some rest => Some (PBool false, rest)
            | _, _, _ =>
                match parse_number s0 with
                | Some (n, rest) => Some (PNum n, rest)
                | None => None
                end
            end
      | EmptyString => None
      end
  end
with parse_elems (fuel : nat) (s : string) (acc : list pyval) : option (pyval * string) :=
  match fuel with
  | O => None
  | S fuel =>
      match parse_value fuel s with
      | Some (v, rest) =>
          match skip_ws rest with
          | String "," rest' => parse_elems fuel rest' (acc ++ [v])
          | String "]" rest' => Some (PList (acc ++ [v]), rest')
          | _ => None
          end
      | None => None
      end
  end
with parse_members (fuel : nat) (s : string) (acc : pydict) : option (pyval * string) :=
  match fuel with
  | O => None
  | S fuel =>
      match skip_ws s with
      | String c s' =>
          if (N_of_ascii c =? 34)%N then
            match parse_chars s' with
            | Some (k, rest) =>
                match skip_ws rest with
                | String ":" rest' =>
                    match parse_value fuel rest' with
                    | Some (v, rest'') =>
                        match skip_ws rest'' with
                        | String "," r => parse_members fuel r (dict_set acc k v)
                        | String "}" r => Some (PDict (dict_set acc k v), r)
                        | _ => None
                        end
                    | None => None
                    end
                | _ => None
                end
            | None => None
            end
          else None
      | EmptyString => None
      end
  end.

Definition json_loads_lite (s : string) : option pyval :=
  match parse_value (S (String.length s)) s with
  | Some (v, rest) => match skip_ws rest with EmptyString => Some v | _ => None end
  | None => None
  end.

(** Drops the zeros at the end of the decimals, keeping one digit. *)
Fixpoint strip_zeros (digits : list ascii) : list ascii :=
  match digits with
  | [] => []
  | c :: rest =>
      match strip_zeros rest with
      | [] => if (N_of_ascii c =? 48)%N then [] else [c]
      | rest' => c :: rest'
      end
  end.

Definition float_repr_lite (q : Q) : string :=
  let scaled := (Qnum q * 1000000) / Zpos (Qden q) in
  let a := Z.abs scaled in
  let frac := NilZero.string_of_int (Z.to_int (1000000 + a mod 1000000)) in
  let decimals :=
    match strip_zeros (list_ascii_of_string (String.substring 1 6 frac)) with
    | [] => "0"
    | ds => string_of_list_ascii ds
    end in
  (if scaled <? 0 then "-" else EmptyString) ++ dumps_int (a / 1000000) ++ "." ++ decimals.

End Lite.
Import Lite.

(** ** Definitions used to state the properties *)

Definition is_call (e : event) : bool :=
  match e with ECall _ _ => true | _ => false end.

(** How many times the underlying function was invoked. *)
Definition calls (l : list event) : nat := length (filter is_call l).

Section Paths.
Context {σ U : Type} {cs : CacheStore σ}.
Local Abbreviation M := (Effect.M σ U).
Variable float_repr : Q -> string.
Variable json_loads : string -> option pyval.

(** Everything [wrapped] does up to its test of the age, when the
    store answers. *)
Definition after_get (w : world σ U) (key : string) (s1 : σ) : world σ U :=
  {| w_store := s1; w_user := w_user w; w_now := w_now w;
     w_thread_slots := w_thread_slots w; w_threads := w_threads w;
     w_log := w_log w ++ [EGet key] |}.

(** What [wrapped] does once [lock.acquire()] has answered: the two
    branches of [if lock.acquire():], and the [return] they fall to. *)
Definition after_acquire cfg (f : pyfunction U) (cached_result : pyval) (now : Q)
    (args : list pyval) (kwargs : pydict) (acquired : bool) : M pyval :=
  if acquired then
    let! bg := lift (bg_condition cfg cached_result now) in
    if bg then
      try_except
        (thread_start {| task_lock := the_lock cfg f; task_args := args; task_kwargs := kwargs |})
        (fun e => lock_release (the_lock cfg f) >> raise e) >>
      lift (py_index cached_result "result")
    else
      update_cache float_repr cfg f (the_lock cfg f) args kwargs
  else
    if negb (bg_caching cfg) || negb (truthy cached_result) then
      call_f f args kwargs
    else
      lift (py_index cached_result "result").

(** The branch of [wrapped] under [if not cached_result or age > expires],
    named so that the paths through it can be stated one by one. *)
Definition on_expired cfg (f : pyfunction U) (cached_result : pyval) (now : Q)
    (args : list pyval) (kwargs : pydict) : M pyval :=
  let! acquired := lock_acquire (the_lock cfg f) in
  after_acquire cfg f cached_result now args kwargs acquired.

(** [m] only appends to the log, and only events that satisfy [P]. *)
Definition emits (P : event -> Prop) {A} (m : M A) : Prop :=
  forall w, exists added, w_log (snd (m w)) = (w_log w ++ added)%list /\ Forall P added.

(** Every lock event of a decorated function is on [the_lock], and what
    it writes, it writes under a key of that function. *)
Definition wrapper_event cfg (f : pyfunction U) (e : event) : Prop :=
  match e with
  | EAcquire lk | ERelease lk => lk = the_lock cfg f
  | EStart t => task_lock t = the_lock cfg f
  | ESet key _ => exists args kwargs,
      mangle float_repr (fname cfg f) (f_sig f) args kwargs = Ok key
  | EGet _ | ECall _ _ => True
  end.

(** The world when the clock shows [t]. *)
Definition at_time (t : Q) (w : world σ U) : world σ U :=
  {| w_store := w_store w; w_user := w_user w; w_now := t;
     w_thread_slots := w_thread_slots w; w_threads := w_threads w;
     w_log := w_log w |}.

(** One call at each of the given times, in order. *)
Fixpoint call_at_times (call : M pyval) (times : list Q) (w : world σ U)
  : list (outcome pyval) * world σ U :=
  match times with
  | [] => ([], w)
  | t :: times' =>
      match call (at_time t w) with
      | (r, w1) =>
          match call_at_times call times' w1 with
          | (rs, w2) => (r :: rs, w2)
          end
      end
  end.

(** [decorated.get(fname)] as a condition. *)
Definition taken (decorated : gmap string bool) (name : string) : bool :=
  default false (decorated !! name).

(** The decorator applied to the functions of a program in order: the
    derived names of the applications that went through, and the
    registry at the end. *)
Fixpoint decorate_all (apps : list (config * pyfunction U)) (decorated : gmap string bool)
  : list string * gmap string bool :=
  match apps with
  | [] => ([], decorated)
  | (cfg, f) :: apps' =>
      match decorate float_repr json_loads cfg f decorated with
      | (Ok _, decorated') =>
          match decorate_all apps' decorated' with
          | (names, decorated'') => (derived_name cfg f :: names, decorated'')
          end
      | (Raise _, decorated') => decorate_all apps' decorated'
      end
  end.

End Paths.

(** ** Functions, configurations and worlds of the examples *)

Definition int (z : Z) : pyval := PNum (Int z).

(** [def baw(a=1, b=1)] of the tests. *)
Definition baw_sig : signature :=
  {| sig_args := ["a"; "b"]; sig_defaults := [int 1; int 1] |}.

(** [def foo(): self.count_foo += 1; return self.count_foo] *)
Definition counter : pyfunction nat :=
  {| f_module := "test_cache"; f_name := "foo";
     f_sig := {| sig_args := []; sig_defaults := [] |};
     f_body := fun _ count now => (Ok (int (Z.of_nat (S count))), S count, now) |}.

(** [def echo(bar): return bar] *)
Definition echo : pyfunction nat :=
  {| f_module := "test_cache"; f_name := "echo";
     f_sig := {| sig_args := ["bar"]; sig_defaults := [] |};
     f_body := fun bound count now =>
       (Ok (default PNone (dict_get bound "bar")), S count, now) |}.

(** [def boom(): raise ...] *)
Definition boom : pyfunction nat :=
  {| f_module := "test_cache"; f_name := "boom";
     f_sig := {| sig_args := []; sig_defaults := [] |};
     f_body := fun _ count now => (Raise (UserError "boom"), S count, now) |}.

(** [@cache(prefix="t")] and [@cache(expires=1, prefix="t", bg_caching=True, stale=2)] *)
Definition cfg_plain : config := cache EmptyString None (Some "t") None None.
Definition cfg_bg : config :=
  cache EmptyString (Some (Int 1)) (Some "t") (Some true) (Some (Int 2)).

Definition key_of (o : outcome string) : string :=
  match o with Ok k => k | Raise _ => EmptyString end.

Definition call_key (cfg : config) (f : pyfunction nat) (args : list pyval) (kwargs : pydict)
  : string :=
  key_of (mangle float_repr_lite (fname cfg f) (f_sig f) args kwargs).

Definition mem_world (data : list (string * string)) (held : list string) (now : Q)
  : world mem_store nat :=
  {| w_store := {| ms_data := list_to_map data; ms_held := list_to_set held |};
     w_user := O; w_now := now; w_thread_slots := 4; w_threads := []; w_log := [] |}.

Definition down_world (now : Q) : world unit nat :=
  {| w_store := tt; w_user := O; w_now := now; w_thread_slots := 4;
     w_threads := []; w_log := [] |}.

Definition run {σ} {cs : CacheStore σ} (cfg : config) (f : pyfunction nat)
    (args : list pyval) (kwargs : pydict) (w : world σ nat) : outcome pyval * world σ nat :=
  wrapped float_repr_lite json_loads_lite cfg f args kwargs w.

(** The entry a computation that returned [result] at time [t] leaves. *)
Definition stored (t : Q) (result : pyval) : string :=
  json_dumps float_repr_lite (PDict [("timestamp", PNum (Float t)); ("result", result)]).

(** Closing a side condition on concrete data by evaluation. *)
Ltac evaluate :=
  solve [ reflexivity
        | vm_compute; reflexivity
        | vm_compute; discriminate
        | vm_compute; auto
        | intros; discriminate ].

Ltac discharge H :=
  repeat match type of H with
         | ?A -> _ =>
             let h := fresh "h" in
             assert (h : A) by evaluate; specialize (H h); clear h
         end.

(** ** The store of the tests: [MockCache.set] and [MockCache.get_count] *)

(** What the dict of a [MockCache] holds: the counters of [set], the
    stored texts, and the records of held locks. *)
Inductive mock_value : Type :=
  | MInt (z : Z)
  | MStr (s : string)
  | MLock (timestamp : Q) (timeout : option number) (uuid : string).

Definition count_key (key : string) : string := "__count_" ++ key.

(** [t = self.setdefault('__count_' + key, 0); self['__count_' + key] = t + 1;
    self[key] = value]; [t + 1] raises for a [t] that is no number. *)
Definition mock_set (key value : string) (d : gmap string mock_value)
  : outcome unit * gmap string mock_value :=
  let d1 := match d !! count_key key with
            | Some _ => d
            | None => <[count_key key := MInt 0]> d
            end in
  match default (MInt 0) (d !! count_key key) with
  | MInt t => (Ok tt, <[key := MStr value]> (<[count_key key := MInt (t + 1)]> d1))
  | _ => (Raise TypeError, d1)
  end.

(** [self['__count_' + key]] *)
Definition mock_get_count (key : string) (d : gmap string mock_value) : outcome mock_value :=
  match d !! count_key key with
  | Some v => Ok v
  | None => Raise (KeyError (count_key key))
  end.

(** The values set one after the other under one key; the first [set]
    that raises ends the sequence. *)
Fixpoint mock_set_all (key : string) (values : list string) (d : gmap string mock_value)
  : outcome unit * gmap string mock_value :=
  match values with
  | [] => (Ok tt, d)
  | value :: values' =>
      match mock_set key value d with
      | (Ok _, d') => mock_set_all key values' d'
      | (Raise e, d') => (Raise e, d')
      end
  end.

(** ** A store whose lock answers as told *)

(** The values as in the in-memory store; [acquire] and [release] return
    what the state says (a Redis lock raises on [release] once its
    time-to-live has run out). *)
Record scripted_store : Type := {
  ss_data : gmap string string;
  ss_acquire : outcome bool;
  ss_release : outcome unit }.

#[export] Instance scripted_cache_store : CacheStore scripted_store := {|
  cs_get := fun key s => (Ok (ss_data s !! key), s);
  cs_set := fun key value s =>
    (Ok tt, {| ss_data := <[key := value]> (ss_data s);
               ss_acquire := ss_acquire s; ss_release := ss_release s |});
  cs_acquire := fun _ s => (ss_acquire s, s);
  cs_release := fun _ s => (ss_release s, s) |}.

Definition scripted_world (data : list (string * string)) (acquire : outcome bool)
    (release : outcome unit) (now : Q) : world scripted_store nat :=
  {| w_store := {| ss_data := list_to_map data; ss_acquire := acquire; ss_release := release |};
     w_user := O; w_now := now; w_thread_slots := 4; w_threads := []; w_log := [] |}.

(** A world in which no thread can be started. *)
Definition no_threads {σ} (w : world σ nat) : world σ nat :=
  {| w_store := w_store w; w_user := w_user w; w_now := w_now w;
     w_thread_slots := O; w_threads := w_threads w; w_log := w_log w |}.

(** [def baz(bar='a')] of the tests. *)
Definition baz_sig : signature :=
  {| sig_args := ["bar"]; sig_defaults := [PStr "a"] |}.

(** [counter] as a function of the module [module]. *)
Definition counter_in (module : string) : pyfunction nat :=
  {| f_module := module; f_name := "foo";
     f_sig := {| sig_args := []; sig_defaults := [] |};
     f_body := fun _ count now => (Ok (int (Z.of_nat (S count))), S count, now) |}.

(** A stored text without ['timestamp'], and one without ['result']. *)
Definition only_result : string := json_dumps float_repr_lite (PDict [("result", int 7)]).
Definition only_timestamp : string :=
  json_dumps float_repr_lite (PDict [("timestamp", PNum (Float 100))]).

(** [def guarded(lock): return lock], a function with a parameter named
    as the second parameter of [update_cache]. *)
Definition guarded : pyfunction nat :=
  {| f_module := "test_cache"; f_name := "guarded";
     f_sig := {| sig_args := ["lock"]; sig_defaults := [] |};
     f_body := fun bound count now =>
       (Ok (default PNone (dict_get bound "lock")), S count, now) |}.

(** ** What one invocation can add to the log *)

Section Traces.
Context {U : Type}.
Variable float_repr : Q -> string.

End Traces.

(** * Properties *)

Section Facts.
Context {σ U : Type} {cs : CacheStore σ}.
Local Abbreviation M := (Effect.M σ U).
Variable float_repr : Q -> string.
Variable json_loads : string -> option pyval.
Local Abbreviation emits P m := (emits (σ := σ) (U := U) P m).

(** *** Running the steps of a computation *)

Lemma bind_ok {A B} (m : M A) (k : A -> M B) w a w' :
  m w = (Ok a, w') -> bind m k w = k a w'.
Proof. intros H. unfold bind. now rewrite H. Qed.

Lemma bind_raise {A B} (m : M A) (k : A -> M B) w e w' :
  m w = (Raise e, w') -> bind m k w = (Raise e, w').
Proof. intros H. unfold bind. now rewrite H. Qed.

Lemma run_store_get key (w : world σ U) r s1 :
  cs_get key (w_store w) = (r, s1) ->
  store_get key w =
    (r, {| w_store := s1; w_user := w_user w; w_now := w_now w;
           w_thread_slots := w_thread_slots w; w_threads := w_threads w;
           w_log := w_log w ++ [EGet key] |}).
Proof. intros H. unfold store_get, bind, log, on_store. simpl. now rewrite H. Qed.


Lemma run_lock_acquire lk (w : world σ U) r s1 :
  cs_acquire lk (w_store w) = (r, s1) ->
  lock_acquire lk w =
    (r, {| w_store := s1; w_user := w_user w; w_now := w_now w;
           w_thread_slots := w_thread_slots w; w_threads := w_threads w;
           w_log := w_log w ++ [EAcquire lk] |}).
Proof. intros H. unfold lock_acquire, bind, log, on_store. simpl. now rewrite H. Qed.

Lemma run_lock_release lk (w : world σ U) r s1 :
  cs_release lk (w_store w) = (r, s1) ->
  lock_release lk w =
    (r, {| w_store := s1; w_user := w_user w; w_now := w_now w;
           w_thread_slots := w_thread_slots w; w_threads := w_threads w;
           w_log := w_log w ++ [ERelease lk] |}).
Proof. intros H. unfold lock_release, bind, log, on_store. simpl. now rewrite H. Qed.

Lemma run_call_f (f : pyfunction U) args kwargs (w : world σ U) bound r u' t' :
  getcallargs (f_sig f) args kwargs = Ok bound ->
  f_body f bound (w_user w) (w_now w) = (r, u', t') ->
  call_f f args kwargs w =
    (r, {| w_store := w_store w; w_user := u'; w_now := t';
           w_thread_slots := w_thread_slots w; w_threads := w_threads w;
           w_log := w_log w ++ [ECall args kwargs] |}).
Proof.
  intros Hb Hf. unfold call_f, bind, log, lift. simpl. rewrite Hb. simpl. now rewrite Hf.
Qed.

(** The fresh path of [wrapped]: one [get], nothing else. *)
Lemma wrapped_fresh cfg (f : pyfunction U) args kwargs (w : world σ U) key raw s1 d ts n r :
  mangle float_repr (fname cfg f) (f_sig f) args kwargs = Ok key ->
  cs_get key (w_store w) = (Ok (Some raw), s1) ->
  json_loads raw = Some (PDict d) ->
  dict_get d "timestamp" = Some ts ->
  as_number ts = Some n ->
  dict_get d "result" = Some r ->
  (w_now w - num_val n <= num_val (expires cfg))%Q ->
  wrapped float_repr json_loads cfg f args kwargs w = (Ok r, after_get w key s1).
Proof.
  intros Hk Hget Hl Hts Hn Hr Hage.
  unfold wrapped.
  erewrite bind_ok; [| unfold lift; rewrite Hk; reflexivity].
  erewrite bind_ok; [| apply run_store_get; eassumption].
  erewrite bind_ok; [| reflexivity].
  assert (Hd : d <> []) by (intros ->; discriminate).
  assert (Hage' : age_of (loads_or_empty json_loads (Some raw)) (w_now w)
                  = Ok (w_now w - num_val n)%Q).
  { unfold age_of, loads_or_empty. rewrite Hl. simpl.
    destruct d; [congruence|]. rewrite Hts. unfold float_sub. now rewrite Hn. }
  erewrite bind_ok; [| unfold lift; simpl w_now; rewrite Hage'; reflexivity].
  replace (truthy (loads_or_empty json_loads (Some raw))) with true
    by (unfold loads_or_empty; rewrite Hl; destruct d; [congruence | reflexivity]).
  replace (Qgt_bool (w_now w - num_val n) (num_val (expires cfg))) with false
    by (unfold Qgt_bool; symmetry; apply negb_false_iff, Qle_bool_iff, Hage).
  simpl. unfold lift, loads_or_empty. rewrite Hl. simpl. rewrite Hr. reflexivity.
Qed.

(** [wrapped] up to its test of the age, when the store answers and the
    age can be computed. *)
Lemma wrapped_after_get cfg (f : pyfunction U) args kwargs (w : world σ U) key raw s1 age :
  mangle float_repr (fname cfg f) (f_sig f) args kwargs = Ok key ->
  cs_get key (w_store w) = (Ok raw, s1) ->
  age_of (loads_or_empty json_loads raw) (w_now w) = Ok age ->
  wrapped float_repr json_loads cfg f args kwargs w =
    (if negb (truthy (loads_or_empty json_loads raw)) || Qgt_bool age (num_val (expires cfg))
     then on_expired float_repr cfg f (loads_or_empty json_loads raw) (w_now w) args kwargs
     else lift (py_index (loads_or_empty json_loads raw) "result")) (after_get w key s1).
Proof.
  intros Hk Hget Hage.
  unfold wrapped.
  erewrite bind_ok; [| unfold lift; rewrite Hk; reflexivity].
  erewrite bind_ok; [| apply run_store_get; eassumption].
  erewrite bind_ok; [| reflexivity].
  erewrite bind_ok; [| unfold lift; simpl w_now; rewrite Hage; reflexivity].
  reflexivity.
Qed.

(** A failing [get] ends the call. *)
Lemma wrapped_get_raises cfg (f : pyfunction U) args kwargs (w : world σ U) key e s1 :
  mangle float_repr (fname cfg f) (f_sig f) args kwargs = Ok key ->
  cs_get key (w_store w) = (Raise e, s1) ->
  wrapped float_repr json_loads cfg f args kwargs w = (Raise e, after_get w key s1).
Proof.
  intros Hk Hget.
  unfold wrapped.
  erewrite bind_ok; [| unfold lift; rewrite Hk; reflexivity].
  erewrite bind_raise; [reflexivity | apply run_store_get; eassumption].
Qed.

(** A stored value that decodes to an entry with a numeric timestamp. *)
Lemma age_of_entry d ts n now :
  d <> [] -> dict_get d "timestamp" = Some ts -> as_number ts = Some n ->
  age_of (PDict d) now = Ok (now - num_val n)%Q.
Proof.
  intros Hd Hts Hn. unfold age_of. destruct d; [congruence|]. simpl truthy. cbv iota.
  unfold py_get. rewrite Hts. unfold float_sub. now rewrite Hn.
Qed.

Lemma truthy_entry d k v : dict_get d k = Some v -> truthy (PDict d) = true.
Proof. destruct d; [discriminate | reflexivity]. Qed.

(** *** The paths of one invocation *)

(** C7, as the code has it: when the store's [get] raises, [wrapped]
    raises the same exception to its caller; it decodes nothing, takes no
    lock and does not invoke the underlying function.  (Only a failure of
    [json.loads] is turned into a miss.) *)
Theorem store_get_failure_propagates cfg (f : pyfunction U) args kwargs (w : world σ U) key e s1 :
  mangle float_repr (fname cfg f) (f_sig f) args kwargs = Ok key ->
  cs_get key (w_store w) = (Raise e, s1) ->
  wrapped float_repr json_loads cfg f args kwargs w = (Raise e, after_get w key s1) /\
  calls (w_log (after_get w key s1)) = calls (w_log w).
Proof.
  intros Hk Hget. split.
  - now apply wrapped_get_raises.
  - unfold calls, after_get. simpl. rewrite filter_app. simpl. rewrite length_app. simpl. lia.
Qed.

(** C8, where the code departs from it: a stored value that
    [json.loads] decodes to a true value other than a dict (a list, a
    string, a number) makes [wrapped] raise [AttributeError] at
    [cached_result.get]. *)
Theorem foreign_entry_raises cfg (f : pyfunction U) args kwargs (w : world σ U) key raw s1 v :
  mangle float_repr (fname cfg f) (f_sig f) args kwargs = Ok key ->
  cs_get key (w_store w) = (Ok (Some raw), s1) ->
  json_loads raw = Some v ->
  truthy v = true ->
  (forall d, v <> PDict d) ->
  wrapped float_repr json_loads cfg f args kwargs w = (Raise AttributeError, after_get w key s1).
Proof.
  intros Hk Hget Hl Ht Hnd.
  unfold wrapped.
  erewrite bind_ok; [| unfold lift; rewrite Hk; reflexivity].
  erewrite bind_ok; [| apply run_store_get; eassumption].
  erewrite bind_ok; [| reflexivity].
  erewrite bind_raise; [reflexivity |].
  unfold lift, age_of, loads_or_empty. rewrite Hl, Ht.
  destruct v; try reflexivity. now destruct (Hnd d).
Qed.

(** C6: on an expired or missing entry, when the lock is not acquired and
    background caching is off or there is no entry, [wrapped] invokes the
    underlying function and returns its outcome; it calls neither [set]
    nor [release] and does not ask for the lock again: after the failed
    [acquire] the store is not touched. *)
Theorem bypass_computes_without_writing cfg (f : pyfunction U) args kwargs (w : world σ U)
    key raw s1 s2 age bound res u' t' :
  mangle float_repr (fname cfg f) (f_sig f) args kwargs = Ok key ->
  cs_get key (w_store w) = (Ok raw, s1) ->
  age_of (loads_or_empty json_loads raw) (w_now w) = Ok age ->
  negb (truthy (loads_or_empty json_loads raw)) || Qgt_bool age (num_val (expires cfg)) = true ->
  cs_acquire (the_lock cfg f) s1 = (Ok false, s2) ->
  bg_caching cfg = false \/ truthy (loads_or_empty json_loads raw) = false ->
  getcallargs (f_sig f) args kwargs = Ok bound ->
  f_body f bound (w_user w) (w_now w) = (res, u', t') ->
  wrapped float_repr json_loads cfg f args kwargs w =
    (res, {| w_store := s2; w_user := u'; w_now := t';
             w_thread_slots := w_thread_slots w; w_threads := w_threads w;
             w_log := w_log w ++ [EGet key; EAcquire (the_lock cfg f); ECall args kwargs] |}).
Proof.
  intros Hk Hget Hage Hexp Hacq Hby Hb Hf.
  rewrite (wrapped_after_get _ _ _ _ _ _ _ _ _ Hk Hget Hage), Hexp.
  unfold on_expired, after_acquire.
  erewrite bind_ok; [| apply run_lock_acquire; simpl; eassumption].
  replace (negb (bg_caching cfg) || negb (truthy (loads_or_empty json_loads raw))) with true
    by (destruct Hby as [-> | ->]; [reflexivity | now rewrite orb_true_r]).
  erewrite run_call_f; [| eassumption | simpl; eassumption].
  simpl. now rewrite <- !app_assoc.
Qed.

(** C2, where the code departs from it: with background caching on, an
    entry in the store and the lock not acquired, [wrapped] returns the
    stored result however old it is, also when its age has reached
    [stale]; the underlying function is not invoked. *)
Theorem contended_serves_beyond_stale cfg (f : pyfunction U) args kwargs (w : world σ U)
    key raw s1 s2 d ts n r :
  mangle float_repr (fname cfg f) (f_sig f) args kwargs = Ok key ->
  cs_get key (w_store w) = (Ok (Some raw), s1) ->
  json_loads raw = Some (PDict d) ->
  dict_get d "timestamp" = Some ts ->
  as_number ts = Some n ->
  dict_get d "result" = Some r ->
  bg_caching cfg = true ->
  (num_val (expires cfg) < w_now w - num_val n)%Q ->
  (num_val (stale cfg) <= w_now w - num_val n)%Q ->
  cs_acquire (the_lock cfg f) s1 = (Ok false, s2) ->
  wrapped float_repr json_loads cfg f args kwargs w =
    (Ok r, {| w_store := s2; w_user := w_user w; w_now := w_now w;
              w_thread_slots := w_thread_slots w; w_threads := w_threads w;
              w_log := w_log w ++ [EGet key; EAcquire (the_lock cfg f)] |}).
Proof.
  intros Hk Hget Hl Hts Hn Hr Hbg Hexp _ Hacq.
  assert (Hc : loads_or_empty json_loads (Some raw) = PDict d)
    by (unfold loads_or_empty; now rewrite Hl).
  assert (Hd : d <> []) by (intros ->; discriminate).
  assert (Hage : age_of (loads_or_empty json_loads (Some raw)) (w_now w)
                 = Ok (w_now w - num_val n)%Q)
    by (rewrite Hc; eapply age_of_entry; eassumption).
  assert (Hgt : negb (truthy (loads_or_empty json_loads (Some raw)))
                || Qgt_bool (w_now w - num_val n) (num_val (expires cfg)) = true).
  { apply orb_true_iff. right. unfold Qgt_bool. apply negb_true_iff.
    destruct (Qle_bool (w_now w - num_val n) (num_val (expires cfg))) eqn:E; [|reflexivity].
    apply Qle_bool_iff in E. exfalso. eapply Qlt_not_le; eassumption. }
  rewrite (wrapped_after_get _ _ _ _ _ _ _ _ _ Hk Hget Hage), Hgt.
  unfold on_expired, after_acquire.
  erewrite bind_ok; [| apply run_lock_acquire; simpl; eassumption].
  rewrite Hc, Hbg, (truthy_entry _ _ _ Hr). simpl.
  unfold lift, py_index. rewrite Hr. now rewrite <- app_assoc.
Qed.

Lemma run_try_finally {A} (body : M A) (final : M unit) w r w' rf w'' :
  body w = (r, w') -> final w' = (rf, w'') ->
  try_finally body final w = (match rf with Ok _ => r | Raise e => Raise e end, w'').
Proof. intros Hb Hf. unfold try_finally. rewrite Hb, Hf. now destruct rf. Qed.

(** A keyword named [f] or [lock] ends the call of [update_cache] before
    its body: nothing is invoked, written or released. *)
Lemma update_cache_keyword_clash cfg (f : pyfunction U) lk args kwargs (w : world σ U) :
  update_cache_binds kwargs = false ->
  update_cache float_repr cfg f lk args kwargs w = (Raise TypeError, w).
Proof. intros Hc. unfold update_cache. now rewrite Hc. Qed.


(** [update_cache] when the function raises: nothing is written,
    [release] is called, the exception goes on unless [release] raises
    one of its own. *)
Lemma update_cache_raises cfg (f : pyfunction U) lk args kwargs (w : world σ U)
    bound e u' t' rr s4 :
  update_cache_binds kwargs = true ->
  getcallargs (f_sig f) args kwargs = Ok bound ->
  f_body f bound (w_user w) (w_now w) = (Raise e, u', t') ->
  cs_release lk (w_store w) = (rr, s4) ->
  update_cache float_repr cfg f lk args kwargs w =
    (match rr with Ok _ => Raise e | Raise e' => Raise e' end,
     {| w_store := s4; w_user := u'; w_now := t';
        w_thread_slots := w_thread_slots w; w_threads := w_threads w;
        w_log := w_log w ++ [ECall args kwargs; ERelease lk] |}).
Proof.
  intros Hc Hb Hf Hrel. unfold update_cache. rewrite Hc.
  erewrite run_try_finally.
  - reflexivity.
  - erewrite bind_raise; [| eapply run_call_f; eassumption]. reflexivity.
  - erewrite run_lock_release; [| simpl; eassumption].
    simpl. now rewrite <- !app_assoc.
Qed.

(** The way of [wrapped] to the synchronous [update_cache]. *)
Lemma wrapped_refreshes_inline cfg (f : pyfunction U) args kwargs (w : world σ U)
    key raw s1 s2 age :
  mangle float_repr (fname cfg f) (f_sig f) args kwargs = Ok key ->
  cs_get key (w_store w) = (Ok raw, s1) ->
  age_of (loads_or_empty json_loads raw) (w_now w) = Ok age ->
  negb (truthy (loads_or_empty json_loads raw)) || Qgt_bool age (num_val (expires cfg)) = true ->
  cs_acquire (the_lock cfg f) s1 = (Ok true, s2) ->
  bg_condition cfg (loads_or_empty json_loads raw) (w_now w) = Ok false ->
  wrapped float_repr json_loads cfg f args kwargs w =
    update_cache float_repr cfg f (the_lock cfg f) args kwargs
      {| w_store := s2; w_user := w_user w; w_now := w_now w;
         w_thread_slots := w_thread_slots w; w_threads := w_threads w;
         w_log := w_log w ++ [EGet key; EAcquire (the_lock cfg f)] |}.
Proof.
  intros Hk Hget Hage Hexp Hacq Hbg.
  rewrite (wrapped_after_get _ _ _ _ _ _ _ _ _ Hk Hget Hage), Hexp.
  unfold on_expired, after_acquire.
  erewrite bind_ok; [| apply run_lock_acquire; simpl; eassumption].
  cbv iota.
  erewrite bind_ok; [| unfold lift; rewrite Hbg; reflexivity].
  unfold after_get. simpl. now rewrite <- app_assoc.
Qed.


(** *** What an invocation can add to the log *)

Section Emits.
Variable P : event -> Prop.

Lemma emits_silent {A} (m : M A) :
  (forall w, w_log (snd (m w)) = w_log w) -> emits P m.
Proof. intros H w. exists []. rewrite H, app_nil_r. auto. Qed.

Lemma emits_ret {A} (a : A) : emits P (ret a).
Proof. now apply emits_silent. Qed.

Lemma emits_raise {A} e : emits P (raise (A:=A) e).
Proof. now apply emits_silent. Qed.

Lemma emits_lift {A} (o : outcome A) : emits P (lift o).
Proof. now apply emits_silent. Qed.

Lemma emits_time : emits P time_time.
Proof. now apply emits_silent. Qed.

Lemma emits_on_store {A} (op : σ -> outcome A * σ) : emits P (on_store op).
Proof. apply emits_silent. intros w. unfold on_store. now destruct (op (w_store w)). Qed.

Lemma emits_log e : P e -> emits P (log e).
Proof. intros H w. exists [e]. simpl. auto. Qed.

Lemma emits_bind {A B} (m : M A) (k : A -> M B) :
  emits P m -> (forall a, emits P (k a)) -> emits P (bind m k).
Proof.
  intros Hm Hk w. unfold bind. destruct (Hm w) as (a1 & E1 & F1).
  destruct (m w) as [[a | e] w1]; simpl in E1.
  - destruct (Hk a w1) as (a2 & E2 & F2). exists (a1 ++ a2)%list.
    rewrite E2, E1, app_assoc. split; [reflexivity | now apply Forall_app].
  - exists a1. auto.
Qed.

Lemma emits_bind_lift {A B} (o : outcome A) (k : A -> M B) :
  (forall a, o = Ok a -> emits P (k a)) -> emits P (bind (lift o) k).
Proof.
  intros Hk w. unfold bind, lift. destruct o as [a | e].
  - now apply Hk.
  - exists []. simpl. rewrite app_nil_r. auto.
Qed.

Lemma emits_try_finally {A} (body : M A) (final : M unit) :
  emits P body -> emits P final -> emits P (try_finally body final).
Proof.
  intros Hb Hf w. unfold try_finally. destruct (Hb w) as (a1 & E1 & F1).
  destruct (body w) as [r w1]; simpl in E1.
  destruct (Hf w1) as (a2 & E2 & F2).
  exists (a1 ++ a2)%list. split; [| now apply Forall_app].
  destruct (final w1) as [[[] | e] w2]; simpl in *; now rewrite E2, E1, app_assoc.
Qed.

Lemma emits_try_except {A} (body : M A) (handler : exn -> M A) :
  emits P body -> (forall e, emits P (handler e)) -> emits P (try_except body handler).
Proof.
  intros Hb Hh w. unfold try_except. destruct (Hb w) as (a1 & E1 & F1).
  destruct (body w) as [[a | e] w1]; simpl in E1.
  - exists a1. auto.
  - destruct (Hh e w1) as (a2 & E2 & F2). exists (a1 ++ a2)%list.
    rewrite E2, E1, app_assoc. split; [reflexivity | now apply Forall_app].
Qed.

Lemma emits_store_get key : P (EGet key) -> emits P (store_get key).
Proof. intros. apply emits_bind; [now apply emits_log | intros; apply emits_on_store]. Qed.

Lemma emits_store_set key value : P (ESet key value) -> emits P (store_set key value).
Proof. intros. apply emits_bind; [now apply emits_log | intros; apply emits_on_store]. Qed.

Lemma emits_lock_acquire lk : P (EAcquire lk) -> emits P (lock_acquire lk).
Proof. intros. apply emits_bind; [now apply emits_log | intros; apply emits_on_store]. Qed.

Lemma emits_lock_release lk : P (ERelease lk) -> emits P (lock_release lk).
Proof. intros. apply emits_bind; [now apply emits_log | intros; apply emits_on_store]. Qed.

Lemma emits_call_f (f : pyfunction U) args kwargs :
  P (ECall args kwargs) -> emits P (call_f f args kwargs).
Proof.
  intros. apply emits_bind; [now apply emits_log | intros _].
  apply emits_bind; [apply emits_lift | intros bound].
  apply emits_silent. intros w. now destruct (f_body f bound (w_user w) (w_now w)) as [[? ?] ?].
Qed.

Lemma emits_thread_start t : P (EStart t) -> emits P (thread_start t).
Proof.
  intros H w. unfold thread_start. destruct (w_thread_slots w).
  - exists []. simpl. rewrite app_nil_r. auto.
  - exists [EStart t]. simpl. auto.
Qed.
End Emits.

Lemma update_cache_emits cfg f args kwargs :
  emits (wrapper_event float_repr cfg f) (update_cache float_repr cfg f (the_lock cfg f) args kwargs).
Proof.
  unfold update_cache. destruct (update_cache_binds kwargs); [| apply emits_raise].
  apply emits_try_finally.
  - apply emits_bind; [now apply emits_call_f | intros result].
    apply emits_bind_lift. intros key Hk.
    apply emits_bind; [apply emits_time | intros t].
    apply emits_bind; [| intros; apply emits_ret].
    apply emits_store_set. simpl. eauto.
  - now apply emits_lock_release.
Qed.

Lemma after_acquire_emits cfg f cached now args kwargs acquired :
  emits (wrapper_event float_repr cfg f) (after_acquire float_repr cfg f cached now args kwargs acquired).
Proof.
  unfold after_acquire. destruct acquired.
  - apply emits_bind_lift. intros [|] _.
    + apply emits_bind; [| intros; apply emits_lift].
      apply emits_try_except; [now apply emits_thread_start | intros e].
      apply emits_bind; [now apply emits_lock_release | intros; apply emits_raise].
    + apply update_cache_emits.
  - destruct (negb (bg_caching cfg) || negb (truthy cached)).
    + now apply emits_call_f.
    + apply emits_lift.
Qed.

(** C3, as the code has it: on an expired or missing entry the lock that
    [wrapped] acquires is the one named ["__lock_" + fname], where [fname]
    is the derived name of the decorated function: the name does not
    depend on the arguments or on the key, so all calls of one decorated
    function share one lock.  Its time-to-live is [expires], its
    [blocking_timeout] is [0.1], and every later lock event of the call is
    on that same lock. *)
Theorem lock_is_per_function cfg (f : pyfunction U) args kwargs (w : world σ U)
    key raw s1 age :
  mangle float_repr (fname cfg f) (f_sig f) args kwargs = Ok key ->
  cs_get key (w_store w) = (Ok raw, s1) ->
  age_of (loads_or_empty json_loads raw) (w_now w) = Ok age ->
  negb (truthy (loads_or_empty json_loads raw)) || Qgt_bool age (num_val (expires cfg)) = true ->
  exists lk rest,
    w_log (snd (wrapped float_repr json_loads cfg f args kwargs w))
      = (w_log w ++ [EGet key; EAcquire lk] ++ rest)%list /\
    Forall (wrapper_event float_repr cfg f) rest /\
    lock_name lk = "__lock_" ++ prefix cfg ++ "_" ++ f_module f ++ "_" ++ f_name f /\
    lock_timeout lk = expires cfg /\
    lock_blocking_timeout lk = 1 # 10 /\
    lock_thread_local lk = false.
Proof.
  intros Hk Hget Hage Hexp.
  exists (the_lock cfg f).
  rewrite (wrapped_after_get _ _ _ _ _ _ _ _ _ Hk Hget Hage), Hexp.
  unfold on_expired, bind.
  destruct (cs_acquire (the_lock cfg f) s1) as [r s2] eqn:Hacq.
  erewrite run_lock_acquire; [| simpl; eassumption].
  destruct r as [acquired | e].
  - match goal with |- context [after_acquire _ ?c ?g ?cr ?n ?a ?k ?b ?w0] =>
      destruct (after_acquire_emits c g cr n a k b w0) as (rest & E & F) end.
    exists rest. rewrite E. simpl. rewrite <- !app_assoc. simpl. repeat split; auto.
  - exists []. simpl. rewrite <- !app_assoc. simpl. repeat split; auto.
Qed.

(** *** Consecutive calls *)

Lemma calls_app l1 l2 : calls (l1 ++ l2) = (calls l1 + calls l2)%nat.
Proof. unfold calls. now rewrite filter_app, length_app. Qed.

Lemma fresh_calls_at_times cfg (f : pyfunction U) args kwargs key raw d ts n r times :
  mangle float_repr (fname cfg f) (f_sig f) args kwargs = Ok key ->
  json_loads raw = Some (PDict d) ->
  dict_get d "timestamp" = Some ts ->
  as_number ts = Some n ->
  dict_get d "result" = Some r ->
  Forall (fun t => t - num_val n <= num_val (expires cfg))%Q times ->
  forall w : world σ U,
    cs_get key (w_store w) = (Ok (Some raw), w_store w) ->
    exists w',
      call_at_times (wrapped float_repr json_loads cfg f args kwargs) times w
        = (map (fun _ => Ok r) times, w') /\
      w_store w' = w_store w /\ w_user w' = w_user w /\
      w_threads w' = w_threads w /\
      w_log w' = (w_log w ++ map (fun _ => EGet key) times)%list.
Proof.
  intros Hk Hl Hts Hn Hr Hfresh. induction Hfresh as [| t times Ht _ IH]; intros w Hget.
  - exists w. simpl. rewrite app_nil_r. auto.
  - simpl call_at_times.
    rewrite (wrapped_fresh cfg f args kwargs (at_time t w) key raw (w_store w) d ts n r);
      try assumption.
    destruct (IH (after_get (at_time t w) key (w_store w)) Hget) as (w' & E & Hs & Hu & Hth & Hlog).
    rewrite E. exists w'. simpl in *. rewrite Hlog, <- app_assoc. auto.
Qed.

(** C4: when the store holds a decodable entry for the key whose age is
    at most [expires], [wrapped] returns the entry's result; all it does
    is the one [get]: the underlying function is not invoked, no lock is
    acquired, nothing is written.  Hence any number of consecutive calls
    made while the entry is fresh return that same result and add no
    invocation of the underlying function to the one that produced the
    entry. *)
Theorem fresh_entry_is_served cfg (f : pyfunction U) args kwargs (w : world σ U)
    key raw s1 d ts n r :
  mangle float_repr (fname cfg f) (f_sig f) args kwargs = Ok key ->
  cs_get key (w_store w) = (Ok (Some raw), s1) ->
  json_loads raw = Some (PDict d) ->
  dict_get d "timestamp" = Some ts ->
  as_number ts = Some n ->
  dict_get d "result" = Some r ->
  (w_now w - num_val n <= num_val (expires cfg))%Q ->
  wrapped float_repr json_loads cfg f args kwargs w =
    (Ok r, {| w_store := s1; w_user := w_user w; w_now := w_now w;
              w_thread_slots := w_thread_slots w; w_threads := w_threads w;
              w_log := w_log w ++ [EGet key] |}) /\
  (s1 = w_store w ->
   forall times,
     Forall (fun t => t - num_val n <= num_val (expires cfg))%Q times ->
     exists w',
       call_at_times (wrapped float_repr json_loads cfg f args kwargs) times w
         = (map (fun _ => Ok r) times, w') /\
       w_store w' = w_store w /\
       w_user w' = w_user w /\
       w_log w' = (w_log w ++ map (fun _ => EGet key) times)%list /\
       calls (w_log w') = calls (w_log w)).
Proof.
  intros Hk Hget Hl Hts Hn Hr Hage. split.
  - now apply (wrapped_fresh cfg f args kwargs w key raw s1 d ts n r).
  - intros -> times Hfresh.
    destruct (fresh_calls_at_times cfg f args kwargs key raw d ts n r times
                Hk Hl Hts Hn Hr Hfresh w Hget) as (w' & E & Hs & Hu & _ & Hlog).
    exists w'. repeat split; try assumption.
    rewrite Hlog, calls_app.
    assert (Hz : calls (map (fun _ => EGet key) times) = 0%nat)
      by (clear; induction times; [reflexivity | assumption]).
    rewrite Hz. lia.
Qed.
End Facts.

(** ** One computation, then fresh reads, on the in-memory store *)


Section InMemory.
Context {U : Type}.
Variable float_repr : Q -> string.
Variable json_loads : string -> option pyval.

End InMemory.

(** ** Registration *)

Section Registry.
Context {σ U : Type} {cs : CacheStore σ}.
Variable float_repr : Q -> string.
Variable json_loads : string -> option pyval.

Lemma decorate_taken cfg (f : pyfunction U) decorated :
  taken decorated (derived_name cfg f) = true ->
  decorate float_repr json_loads cfg f decorated = (Raise CacheNameClashException, decorated).
Proof. unfold decorate, taken. now intros ->. Qed.

Lemma decorate_free cfg (f : pyfunction U) decorated :
  taken decorated (derived_name cfg f) = false ->
  decorate float_repr json_loads cfg f decorated
    = (Ok (wrapped float_repr json_loads cfg f), <[derived_name cfg f := true]> decorated).
Proof. unfold decorate, taken. now intros ->. Qed.

Lemma taken_insert decorated name x :
  taken (<[name := true]> decorated) x = (bool_decide (name = x) || taken decorated x).
Proof.
  unfold taken. destruct (decide (name = x)) as [-> | Hne].
  - now rewrite lookup_insert_eq, bool_decide_eq_true_2.
  - now rewrite lookup_insert_ne, bool_decide_eq_false_2.
Qed.

(** A name stays taken, and the names that went through are new, taken
    afterwards, and pairwise distinct. *)
Lemma decorate_all_spec (apps : list (config * pyfunction U)) :
  forall decorated,
    (forall x, taken decorated x = true -> taken (snd (decorate_all (σ := σ) float_repr json_loads apps decorated)) x = true) /\
    (forall x, x ∈ fst (decorate_all (σ := σ) float_repr json_loads apps decorated) ->
       taken decorated x = false /\ taken (snd (decorate_all (σ := σ) float_repr json_loads apps decorated)) x = true) /\
    NoDup (fst (decorate_all (σ := σ) float_repr json_loads apps decorated)).
Proof.
  induction apps as [| [cfg f] apps IH]; intros decorated; simpl.
  - split; [auto | split; [| constructor]].
    intros x Hx. inversion Hx.
  - destruct (taken decorated (derived_name cfg f)) eqn:Ht.
    + rewrite (decorate_taken _ _ _ Ht). apply IH.
    + rewrite (decorate_free _ _ _ Ht).
      destruct (IH (<[derived_name cfg f := true]> decorated)) as (Hkeep & Hnew & Hnd).
      destruct (decorate_all (σ := σ) float_repr json_loads apps (<[derived_name cfg f := true]> decorated))
        as [names decorated''] eqn:E.
      simpl in *. split; [| split].
      * intros x Hx. apply Hkeep. rewrite taken_insert, Hx. apply orb_true_r.
      * intros x Hx. apply elem_of_cons in Hx as [-> | Hin].
        -- split; [assumption |].
           apply Hkeep. rewrite taken_insert, bool_decide_eq_true_2; auto.
        -- destruct (Hnew x Hin) as [Hfree Htaken]. split; [| assumption].
           rewrite taken_insert in Hfree. now apply orb_false_iff in Hfree.
      * constructor; [| assumption].
        intros Hin. destruct (Hnew _ Hin) as [Hfree _].
        rewrite taken_insert, bool_decide_eq_true_2 in Hfree; [discriminate | reflexivity].
Qed.

(** C9: once an application of the decorator has gone through, any
    later application with the same derived name raises
    [CacheNameClashException] and returns no wrapped function, so the
    clash is reported when the function is decorated, not when it is
    called; whatever the order of the applications, the names that went
    through are pairwise distinct. *)
Theorem name_clash_is_rejected cfg1 (f1 : pyfunction U) cfg2 (f2 : pyfunction U)
    (between : list (config * pyfunction U)) (decorated decorated1 : gmap string bool) wrapped1 :
  derived_name cfg1 f1 = derived_name cfg2 f2 ->
  decorate float_repr json_loads cfg1 f1 decorated = (Ok wrapped1, decorated1) ->
  decorate float_repr json_loads cfg2 f2 (snd (decorate_all (σ := σ) float_repr json_loads between decorated1))
    = (Raise CacheNameClashException, snd (decorate_all (σ := σ) float_repr json_loads between decorated1)) /\
  forall apps : list (config * pyfunction U),
    NoDup (fst (decorate_all (σ := σ) float_repr json_loads apps decorated)).
Proof.
  intros Hname Hfirst. split.
  - apply decorate_taken. rewrite <- Hname.
    apply (proj1 (decorate_all_spec between decorated1)).
    unfold decorate in Hfirst.
    destruct (default false (decorated !! derived_name cfg1 f1)); [discriminate |].
    injection Hfirst as _ <-. rewrite taken_insert, bool_decide_eq_true_2; auto.
  - intros apps. apply (proj2 (proj2 (decorate_all_spec apps decorated))).
Qed.
End Registry.

(** ** The configurator *)



(** ** The key of a call *)

(** C1, where the code departs from it: [baw(a=1, b=2)] and
    [baw(b=2, a=1)] bind every parameter to the same value, yet their keys
    differ, because [mangle] writes the mapping in the order
    [getcallargs] filled it (the sorted items are printed, not used). *)
Theorem keyword_order_changes_key (float_repr : Q -> string) :
  let fname := "test_kwargs_caching_test_cache_baw" in
  let by_ab := [("a", int 1); ("b", int 2)] in
  let by_ba := [("b", int 2); ("a", int 1)] in
  exists bound_ab bound_ba key_ab key_ba,
    getcallargs baw_sig [] by_ab = Ok bound_ab /\
    getcallargs baw_sig [] by_ba = Ok bound_ba /\
    (forall p, dict_get bound_ab p = dict_get bound_ba p) /\
    mangle float_repr fname baw_sig [] by_ab = Ok key_ab /\
    mangle float_repr fname baw_sig [] by_ba = Ok key_ba /\
    key_ab <> key_ba.
Proof.
  intros fname by_ab by_ba. exists by_ab, by_ba. do 2 eexists.
  split; [reflexivity |]. split; [reflexivity |].
  split; [| split; [reflexivity | split; [reflexivity |]]].
  - intros p. subst by_ab by_ba. cbn [dict_get].
    destruct (String.eqb "a" p) eqn:Ea, (String.eqb "b" p) eqn:Eb; try reflexivity.
    apply String.eqb_eq in Ea, Eb. congruence.
  - vm_compute. discriminate.
Qed.

(** Positional and keyword forms of one call, and a default left out,
    do give one key. *)
Example positional_keyword_same_key (float_repr : Q -> string) fname :
  mangle float_repr fname baw_sig [int 1; int 2] [] = mangle float_repr fname baw_sig [int 1] [("b", int 2)] /\
  mangle float_repr fname baw_sig [int 1] [("b", int 2)] = mangle float_repr fname baw_sig [] [("a", int 1); ("b", int 2)] /\
  mangle float_repr fname baw_sig [] [] = mangle float_repr fname baw_sig [int 1] [].
Proof. repeat split. Qed.

(** ** Examples on concrete stores *)

(** A first call on an empty store computes, writes and releases. *)
Example first_call_computes :
  let w := snd (run cfg_plain counter [] [] (mem_world [] [] 100)) in
  fst (run cfg_plain counter [] [] (mem_world [] [] 100)) = Ok (int 1) /\
  ms_data (w_store w) !! call_key cfg_plain counter [] [] = Some (stored 100 (int 1)) /\
  calls (w_log w) = 1%nat.
Proof. vm_compute. auto. Qed.

(** C4 at work: after the computation at time 100, calls at 102, 103 and
    105 (with [expires=5]) are served from the store. *)
Lemma fresh_entry_is_served_witness :
  let w := at_time 102 (snd (run cfg_plain counter [] [] (mem_world [] [] 100))) in
  fst (run cfg_plain counter [] [] w) = Ok (int 1) /\
  exists w',
    call_at_times (run cfg_plain counter [] []) [102; 103; 105]%Q w
      = ([Ok (int 1); Ok (int 1); Ok (int 1)], w') /\
    calls (w_log w') = 1%nat.
Proof.
  intros w.
  assert (H := fresh_entry_is_served float_repr_lite json_loads_lite cfg_plain counter [] [] w
                 (call_key cfg_plain counter [] []) (stored 100 (int 1)) (w_store w)
                 [("timestamp", PNum (Float 100)); ("result", int 1)]
                 (PNum (Float 100)) (Float 100) (int 1)).
  discharge H. destruct H as [Hone Hmany]. split.
  - unfold run. rewrite Hone. reflexivity.
  - destruct (Hmany eq_refl [102; 103; 105]%Q) as (w' & E & _ & _ & _ & Hcalls).
    + repeat constructor; evaluate.
    + exists w'. split; [exact E | rewrite Hcalls; reflexivity].
Defined.

(** C2 at the failing input: [expires=1], [stale=2], background caching,
    an entry written at time 0, the lock held by another caller, and the
    call made at time 100: the result of time 0 is returned. *)
Lemma contended_serves_beyond_stale_witness :
  let w := mem_world [(call_key cfg_bg counter [] [], stored 0 (int 7))]
             [lock_name (the_lock cfg_bg counter)] 100 in
  fst (run cfg_bg counter [] [] w) = Ok (int 7) /\
  calls (w_log (snd (run cfg_bg counter [] [] w))) = 0%nat.
Proof.
  intros w.
  assert (H := contended_serves_beyond_stale float_repr_lite json_loads_lite cfg_bg counter [] [] w
                 (call_key cfg_bg counter [] []) (stored 0 (int 7)) (w_store w) (w_store w)
                 [("timestamp", PNum (Float 0)); ("result", int 7)]
                 (PNum (Float 0)) (Float 0) (int 7)).
  discharge H. unfold run. rewrite H. split; reflexivity.
Defined.

(** C3, as stated, fails: two calls of one decorated function with
    different arguments have different keys and acquire the same lock,
    whose name is not ["lock_" + key]. *)
Lemma lock_shared_by_different_keys :
  exists k1 k2 lk rest1 rest2,
    mangle float_repr_lite (fname cfg_plain echo) (f_sig echo) [int 1] [] = Ok k1 /\
    mangle float_repr_lite (fname cfg_plain echo) (f_sig echo) [int 2] [] = Ok k2 /\
    k1 <> k2 /\
    w_log (snd (run cfg_plain echo [int 1] [] (mem_world [] [] 100)))
      = EGet k1 :: EAcquire lk :: rest1 /\
    w_log (snd (run cfg_plain echo [int 2] [] (mem_world [] [] 100)))
      = EGet k2 :: EAcquire lk :: rest2 /\
    lock_name lk <> "lock_" ++ k1 /\
    lock_name lk <> "lock_" ++ k2.
Proof.
  do 5 eexists.
  split; [vm_compute; reflexivity |]. split; [vm_compute; reflexivity |].
  split; [vm_compute; discriminate |].
  split; [vm_compute; reflexivity |]. split; [vm_compute; reflexivity |].
  split; vm_compute; discriminate.
Qed.

Lemma lock_is_per_function_witness :
  exists lk rest,
    w_log (snd (run cfg_plain echo [int 1] [] (mem_world [] [] 100)))
      = ([] ++ [EGet (call_key cfg_plain echo [int 1] []); EAcquire lk] ++ rest)%list /\
    Forall (wrapper_event float_repr_lite cfg_plain echo) rest /\
    lock_name lk = "__lock_t_test_cache_echo" /\
    lock_timeout lk = Int 5 /\
    lock_blocking_timeout lk = 1 # 10 /\
    lock_thread_local lk = false.
Proof.
  assert (H := lock_is_per_function float_repr_lite json_loads_lite cfg_plain echo [int 1] []
                 (mem_world [] [] 100) (call_key cfg_plain echo [int 1] []) None
                 (w_store (mem_world [] [] 100)) 100%Q).
  discharge H. exact H.
Defined.



(** C6 at work: the lock is held by another caller and nothing is stored:
    the function is computed and the store left as it was. *)
Lemma bypass_computes_without_writing_witness :
  let w := mem_world [] [lock_name (the_lock cfg_plain counter)] 100 in
  run cfg_plain counter [] [] w =
    (Ok (int 1),
     {| w_store := w_store w; w_user := 1%nat; w_now := 100;
        w_thread_slots := 4; w_threads := [];
        w_log := [EGet (call_key cfg_plain counter [] []);
                  EAcquire (the_lock cfg_plain counter); ECall [] []] |}).
Proof.
  intros w.
  assert (H := bypass_computes_without_writing float_repr_lite json_loads_lite cfg_plain counter
                 [] [] w (call_key cfg_plain counter [] []) None (w_store w) (w_store w)
                 100%Q [] (Ok (int 1)) 1%nat 100%Q).
  discharge H. exact H.
Defined.

(** C7, as stated, fails: on a store whose [get] raises, the call raises
    and the function is not computed, whereas a miss computes it. *)
Lemma store_get_failure_is_not_a_miss :
  fst (run cfg_plain counter [] [] (down_world 100)) = Raise (StoreError "timeout") /\
  calls (w_log (snd (run cfg_plain counter [] [] (down_world 100)))) = 0%nat /\
  fst (run cfg_plain counter [] [] (mem_world [] [] 100)) = Ok (int 1) /\
  calls (w_log (snd (run cfg_plain counter [] [] (mem_world [] [] 100)))) = 1%nat.
Proof. vm_compute. auto. Qed.

Lemma store_get_failure_propagates_witness :
  run cfg_plain counter [] [] (down_world 100)
    = (Raise (StoreError "timeout"),
       after_get (down_world 100) (call_key cfg_plain counter [] []) tt) /\
  calls (w_log (after_get (down_world 100) (call_key cfg_plain counter [] []) tt))
    = calls (w_log (down_world 100)).
Proof.
  assert (H := store_get_failure_propagates float_repr_lite json_loads_lite cfg_plain counter
                 [] [] (down_world 100) (call_key cfg_plain counter [] [])
                 (StoreError "timeout") tt).
  discharge H. exact H.
Defined.

(** C8 at the failing input: the value stored under the key is [[1]]. *)
Lemma foreign_entry_raises_witness :
  let key := call_key cfg_plain counter [] [] in
  let w := mem_world [(key, "[1]")] [] 100 in
  run cfg_plain counter [] [] w = (Raise AttributeError, after_get w key (w_store w)).
Proof.
  intros key w.
  assert (H := foreign_entry_raises float_repr_lite json_loads_lite cfg_plain counter [] [] w
                 key "[1]" (w_store w) (PList [int 1])).
  discharge H. exact H.
Defined.

(** An entry that [json.loads] rejects, or decodes to a false value, is a
    miss. *)
Example corrupt_entry_is_a_miss :
  let key := call_key cfg_plain counter [] [] in
  fst (run cfg_plain counter [] [] (mem_world [(key, "{not json")] [] 100)) = Ok (int 1) /\
  fst (run cfg_plain counter [] [] (mem_world [(key, "[]")] [] 100)) = Ok (int 1) /\
  fst (run cfg_plain counter [] [] (mem_world [(key, "null")] [] 100)) = Ok (int 1).
Proof. vm_compute. auto. Qed.

(** C9 at work: [counter] decorated twice with the same prefix, with
    [echo] decorated in between. *)
Lemma name_clash_is_rejected_witness :
  let decorate_lite := decorate (σ := mem_store) float_repr_lite json_loads_lite in
  let decorated1 := snd (decorate_lite cfg_plain counter ∅) in
  let decorated2 := snd (decorate_all (σ := mem_store) float_repr_lite json_loads_lite [(cfg_plain, echo)] decorated1) in
  decorate_lite cfg_bg counter decorated2 = (Raise CacheNameClashException, decorated2) /\
  forall apps : list (config * pyfunction nat),
    NoDup (fst (decorate_all (σ := mem_store) float_repr_lite json_loads_lite apps ∅)).
Proof.
  intros decorate_lite decorated1 decorated2.
  exact (name_clash_is_rejected (σ := mem_store) float_repr_lite json_loads_lite cfg_plain counter cfg_bg counter
           [(cfg_plain, echo)] ∅ decorated1 (wrapped float_repr_lite json_loads_lite cfg_plain counter)
           eq_refl eq_refl).
Defined.


(** * Further properties of the code *)

(** ** Binding errors *)

Lemma bind_named_raises_TypeError params named arg2value e :
  bind_named params named arg2value = Raise e -> e = TypeError.
Proof.
  revert arg2value. induction named as [| [kw value] rest IH]; intros arg2value; simpl.
  - discriminate.
  - destruct (negb (name_in kw params)); [congruence |].
    destruct (dict_has arg2value kw); [congruence | apply IH].
Qed.

Lemma bind_named_unknown params named arg2value kw value :
  In (kw, value) named -> name_in kw params = false ->
  bind_named params named arg2value = Raise TypeError.
Proof.
  intros Hin Hkw. revert arg2value.
  induction named as [| [kw' value'] rest IH]; intros arg2value; simpl; [destruct Hin |].
  destruct Hin as [Heq | Hin].
  - injection Heq as -> ->. now rewrite Hkw.
  - destruct (negb (name_in kw' params)); [reflexivity |].
    destruct (dict_has arg2value kw'); [reflexivity | now apply IH].
Qed.

(** [getcallargs] raises nothing but [TypeError]. *)
Lemma getcallargs_raises_TypeError sg positional named e :
  getcallargs sg positional named = Raise e -> e = TypeError.
Proof.
  unfold getcallargs.
  destruct (bind_named _ named _) as [d | e'] eqn:Hb.
  - destruct (_ <? _)%nat; [congruence |].
    destruct (_ <? _)%nat; [| discriminate].
    destruct (forallb _ _); [discriminate | congruence].
  - intros H. injection H as <-. now apply bind_named_raises_TypeError in Hb.
Qed.

Lemma getcallargs_rejects sg positional named :
  (length (sig_args sg) < length positional)%nat \/
  (exists kw value, In (kw, value) named /\ name_in kw (sig_args sg) = false) ->
  getcallargs sg positional named = Raise TypeError.
Proof.
  intros H. unfold getcallargs.
  destruct (bind_named _ named _) as [d | e] eqn:Hb.
  - destruct H as [Hlen | (kw & value & Hin & Hkw)].
    + apply Nat.ltb_lt in Hlen. now rewrite Hlen.
    + rewrite (bind_named_unknown _ _ _ _ _ Hin Hkw) in Hb. discriminate.
  - now rewrite (bind_named_raises_TypeError _ _ _ _ Hb).
Qed.

Section MorePaths.
Context {σ U : Type} {cs : CacheStore σ}.
Local Abbreviation M := (Effect.M σ U).
Variable float_repr : Q -> string.
Variable json_loads : string -> option pyval.

(** X1: A call with more positional arguments than the function has
    parameters, or with a keyword that names none of them, raises
    [TypeError] before the store is asked anything: the world is left as
    it was (no [get], no lock, no invocation of the function). *)
Theorem binding_error_stops_call cfg (f : pyfunction U) args kwargs (w : world σ U) :
  (length (sig_args (f_sig f)) < length args)%nat \/
  (exists kw value, In (kw, value) kwargs /\ name_in kw (sig_args (f_sig f)) = false) ->
  wrapped float_repr json_loads cfg f args kwargs w = (Raise TypeError, w).
Proof.
  intros H. unfold wrapped.
  erewrite bind_raise; [reflexivity |].
  unfold lift, mangle. now rewrite (getcallargs_rejects _ _ _ H).
Qed.

(** X4: An entry that is absent, that [json.loads] rejects or that decodes to
    a false value is never served, with or without background caching:
    the call asks for the lock and then either refreshes the cache
    inline (lock acquired) or invokes the function without caching. *)
Theorem miss_refreshes_or_bypasses cfg (f : pyfunction U) args kwargs (w : world σ U)
    key raw s1 acquired s2 :
  mangle float_repr (fname cfg f) (f_sig f) args kwargs = Ok key ->
  cs_get key (w_store w) = (Ok raw, s1) ->
  truthy (loads_or_empty json_loads raw) = false ->
  cs_acquire (the_lock cfg f) s1 = (Ok acquired, s2) ->
  wrapped float_repr json_loads cfg f args kwargs w =
    (if acquired
     then update_cache float_repr cfg f (the_lock cfg f) args kwargs
     else call_f f args kwargs)
      {| w_store := s2; w_user := w_user w; w_now := w_now w;
         w_thread_slots := w_thread_slots w; w_threads := w_threads w;
         w_log := w_log w ++ [EGet key; EAcquire (the_lock cfg f)] |}.
Proof.
  intros Hk Hget Hfalse Hacq.
  assert (Hage : age_of (loads_or_empty json_loads raw) (w_now w) = Ok (w_now w))
    by (unfold age_of; now rewrite Hfalse).
  rewrite (wrapped_after_get float_repr json_loads _ _ _ _ _ _ _ _ _ Hk Hget Hage), Hfalse.
  cbn [negb orb]. unfold on_expired, after_acquire.
  erewrite bind_ok; [| apply run_lock_acquire; simpl; eassumption].
  unfold after_get. cbn [w_store w_user w_now w_thread_slots w_threads w_log].
  rewrite <- app_assoc. cbn [app].
  destruct acquired.
  - erewrite bind_ok;
      [| unfold lift, bg_condition; rewrite Hfalse, andb_false_r; reflexivity].
    reflexivity.
  - now rewrite Hfalse, orb_true_r.
Qed.

(** X5: When [lock.acquire()] itself raises, the exception reaches the caller
    and the function is not invoked. *)
Theorem acquire_failure_propagates cfg (f : pyfunction U) args kwargs (w : world σ U)
    key raw s1 age e s2 :
  mangle float_repr (fname cfg f) (f_sig f) args kwargs = Ok key ->
  cs_get key (w_store w) = (Ok raw, s1) ->
  age_of (loads_or_empty json_loads raw) (w_now w) = Ok age ->
  negb (truthy (loads_or_empty json_loads raw)) || Qgt_bool age (num_val (expires cfg)) = true ->
  cs_acquire (the_lock cfg f) s1 = (Raise e, s2) ->
  wrapped float_repr json_loads cfg f args kwargs w =
    (Raise e,
     {| w_store := s2; w_user := w_user w; w_now := w_now w;
        w_thread_slots := w_thread_slots w; w_threads := w_threads w;
        w_log := w_log w ++ [EGet key; EAcquire (the_lock cfg f)] |}).
Proof.
  intros Hk Hget Hage Hexp Hacq.
  rewrite (wrapped_after_get float_repr json_loads _ _ _ _ _ _ _ _ _ Hk Hget Hage), Hexp.
  unfold on_expired.
  erewrite bind_raise; [| apply run_lock_acquire; simpl; eassumption].
  unfold after_get. simpl. now rewrite <- app_assoc.
Qed.

(** *** Background refresh *)

Lemma run_thread_start t (w : world σ U) k :
  w_thread_slots w = S k ->
  thread_start t w =
    (Ok tt, {| w_store := w_store w; w_user := w_user w; w_now := w_now w;
               w_thread_slots := k; w_threads := w_threads w ++ [t];
               w_log := w_log w ++ [EStart t] |}).
Proof. intros H. unfold thread_start. now rewrite H. Qed.

(** The way of [wrapped] to the test of [bg_caching], for an entry with a
    numeric timestamp that has expired, once the lock is acquired. *)
Lemma wrapped_expired_entry_locked cfg (f : pyfunction U) args kwargs (w : world σ U)
    key raw s1 s2 d ts n :
  mangle float_repr (fname cfg f) (f_sig f) args kwargs = Ok key ->
  cs_get key (w_store w) = (Ok (Some raw), s1) ->
  json_loads raw = Some (PDict d) ->
  dict_get d "timestamp" = Some ts ->
  as_number ts = Some n ->
  (num_val (expires cfg) < w_now w - num_val n)%Q ->
  cs_acquire (the_lock cfg f) s1 = (Ok true, s2) ->
  wrapped float_repr json_loads cfg f args kwargs w =
    after_acquire float_repr cfg f (PDict d) (w_now w) args kwargs true
      {| w_store := s2; w_user := w_user w; w_now := w_now w;
         w_thread_slots := w_thread_slots w; w_threads := w_threads w;
         w_log := w_log w ++ [EGet key; EAcquire (the_lock cfg f)] |}.
Proof.
  intros Hk Hget Hl Hts Hn Hexp Hacq.
  assert (Hc : loads_or_empty json_loads (Some raw) = PDict d)
    by (unfold loads_or_empty; now rewrite Hl).
  assert (Hd : d <> []) by (intros ->; discriminate).
  assert (Hage : age_of (loads_or_empty json_loads (Some raw)) (w_now w)
                 = Ok (w_now w - num_val n)%Q)
    by (rewrite Hc; eapply age_of_entry; eassumption).
  assert (Hgt : negb (truthy (loads_or_empty json_loads (Some raw)))
                || Qgt_bool (w_now w - num_val n) (num_val (expires cfg)) = true).
  { apply orb_true_iff. right. unfold Qgt_bool. apply negb_true_iff.
    destruct (Qle_bool (w_now w - num_val n) (num_val (expires cfg))) eqn:E; [| reflexivity].
    apply Qle_bool_iff in E. exfalso. eapply Qlt_not_le; eassumption. }
  rewrite (wrapped_after_get float_repr json_loads _ _ _ _ _ _ _ _ _ Hk Hget Hage), Hgt.
  unfold on_expired.
  erewrite bind_ok; [| apply run_lock_acquire; simpl; eassumption].
  rewrite Hc. unfold after_get. simpl. now rewrite <- app_assoc.
Qed.

Lemma bg_condition_entry cfg d ts n now :
  bg_caching cfg = true ->
  dict_get d "timestamp" = Some ts ->
  as_number ts = Some n ->
  bg_condition cfg (PDict d) now = Ok (Qlt_bool (now - num_val n) (num_val (stale cfg))).
Proof.
  intros Hbg Hts Hn. unfold bg_condition.
  rewrite Hbg, (truthy_entry _ _ _ Hts). simpl andb. cbv iota.
  unfold py_index. rewrite Hts. unfold float_sub. now rewrite Hn.
Qed.

Lemma Qlt_bool_true a b : (a < b)%Q -> Qlt_bool a b = true.
Proof.
  intros H. unfold Qlt_bool. apply negb_true_iff.
  destruct (Qle_bool b a) eqn:E; [| reflexivity].
  apply Qle_bool_iff in E. exfalso. eapply Qlt_not_le; eassumption.
Qed.


(** X6: With background caching on, an entry older than [expires] and younger
    than [stale], and the lock acquired, [wrapped] starts one thread that
    carries the lock and the arguments of the call, and returns the stored
    result at once: the function is not invoked by the caller, nothing is
    written and the lock is not released by the caller (the thread is to
    release it). *)
Theorem background_refresh_serves_stale cfg (f : pyfunction U) args kwargs (w : world σ U)
    key raw s1 s2 d ts n r k :
  mangle float_repr (fname cfg f) (f_sig f) args kwargs = Ok key ->
  cs_get key (w_store w) = (Ok (Some raw), s1) ->
  json_loads raw = Some (PDict d) ->
  dict_get d "timestamp" = Some ts ->
  as_number ts = Some n ->
  dict_get d "result" = Some r ->
  bg_caching cfg = true ->
  (num_val (expires cfg) < w_now w - num_val n)%Q ->
  (w_now w - num_val n < num_val (stale cfg))%Q ->
  cs_acquire (the_lock cfg f) s1 = (Ok true, s2) ->
  w_thread_slots w = S k ->
  let t := {| task_lock := the_lock cfg f; task_args := args; task_kwargs := kwargs |} in
  wrapped float_repr json_loads cfg f args kwargs w =
    (Ok r, {| w_store := s2; w_user := w_user w; w_now := w_now w;
              w_thread_slots := k; w_threads := w_threads w ++ [t];
              w_log := w_log w ++ [EGet key; EAcquire (the_lock cfg f); EStart t] |}).
Proof.
  intros Hk Hget Hl Hts Hn Hr Hbg Hexp Hstale Hacq Hslots t.
  rewrite (wrapped_expired_entry_locked _ _ _ _ _ _ _ _ _ _ _ _ Hk Hget Hl Hts Hn Hexp Hacq).
  unfold after_acquire.
  erewrite bind_ok;
    [| unfold lift; rewrite (bg_condition_entry _ _ _ _ _ Hbg Hts Hn),
         (Qlt_bool_true _ _ Hstale); reflexivity].
  cbv iota.
  erewrite bind_ok;
    [| unfold try_except; erewrite run_thread_start; [reflexivity | exact Hslots]].
  unfold lift, py_index. rewrite Hr. simpl. now rewrite <- app_assoc.
Qed.

(** X7: When the thread cannot be started, the caller releases the lock and
    gets the exception of [start]; the stored result is not returned and
    the function is not invoked. *)
Theorem thread_start_failure_releases_lock cfg (f : pyfunction U) args kwargs (w : world σ U)
    key raw s1 s2 s3 d ts n :
  mangle float_repr (fname cfg f) (f_sig f) args kwargs = Ok key ->
  cs_get key (w_store w) = (Ok (Some raw), s1) ->
  json_loads raw = Some (PDict d) ->
  dict_get d "timestamp" = Some ts ->
  as_number ts = Some n ->
  bg_caching cfg = true ->
  (num_val (expires cfg) < w_now w - num_val n)%Q ->
  (w_now w - num_val n < num_val (stale cfg))%Q ->
  cs_acquire (the_lock cfg f) s1 = (Ok true, s2) ->
  w_thread_slots w = O ->
  cs_release (the_lock cfg f) s2 = (Ok tt, s3) ->
  wrapped float_repr json_loads cfg f args kwargs w =
    (Raise RuntimeError,
     {| w_store := s3; w_user := w_user w; w_now := w_now w;
        w_thread_slots := O; w_threads := w_threads w;
        w_log := w_log w ++
          [EGet key; EAcquire (the_lock cfg f); ERelease (the_lock cfg f)] |}).
Proof.
  intros Hk Hget Hl Hts Hn Hbg Hexp Hstale Hacq Hslots Hrel.
  rewrite (wrapped_expired_entry_locked _ _ _ _ _ _ _ _ _ _ _ _ Hk Hget Hl Hts Hn Hexp Hacq).
  unfold after_acquire.
  erewrite bind_ok;
    [| unfold lift; rewrite (bg_condition_entry _ _ _ _ _ Hbg Hts Hn),
         (Qlt_bool_true _ _ Hstale); reflexivity].
  cbv iota.
  erewrite bind_raise; [reflexivity |].
  unfold try_except, thread_start. cbn [w_thread_slots]. rewrite Hslots.
  erewrite bind_ok; [| apply run_lock_release; simpl; eassumption].
  unfold raise. simpl. now rewrite <- !app_assoc.
Qed.

(** *** Entries that lack a field *)

(** X8: A stored object without ['timestamp'] counts as written at time 0 when
    the age is computed, but the test for a background refresh indexes
    the field: with background caching on and the lock acquired, the call
    raises [KeyError] and the lock it acquired is never released. *)
Theorem entry_without_timestamp_keeps_lock cfg (f : pyfunction U) args kwargs (w : world σ U)
    key raw s1 s2 d :
  mangle float_repr (fname cfg f) (f_sig f) args kwargs = Ok key ->
  cs_get key (w_store w) = (Ok (Some raw), s1) ->
  json_loads raw = Some (PDict d) ->
  d <> [] ->
  dict_get d "timestamp" = None ->
  bg_caching cfg = true ->
  (num_val (expires cfg) < w_now w)%Q ->
  cs_acquire (the_lock cfg f) s1 = (Ok true, s2) ->
  wrapped float_repr json_loads cfg f args kwargs w =
    (Raise (KeyError "timestamp"),
     {| w_store := s2; w_user := w_user w; w_now := w_now w;
        w_thread_slots := w_thread_slots w; w_threads := w_threads w;
        w_log := w_log w ++ [EGet key; EAcquire (the_lock cfg f)] |}).
Proof.
  intros Hk Hget Hl Hd Hts Hbg Hexp Hacq.
  assert (Hc : loads_or_empty json_loads (Some raw) = PDict d)
    by (unfold loads_or_empty; now rewrite Hl).
  assert (Ht : truthy (PDict d) = true) by (destruct d; [congruence | reflexivity]).
  assert (Hage : age_of (loads_or_empty json_loads (Some raw)) (w_now w)
                 = Ok (w_now w - 0)%Q).
  { rewrite Hc. unfold age_of. rewrite Ht. unfold py_get. now rewrite Hts. }
  assert (Hgt : negb (truthy (loads_or_empty json_loads (Some raw)))
                || Qgt_bool (w_now w - 0) (num_val (expires cfg)) = true).
  { apply orb_true_iff. right. unfold Qgt_bool. apply negb_true_iff.
    destruct (Qle_bool (w_now w - 0) (num_val (expires cfg))) eqn:E; [| reflexivity].
    apply Qle_bool_iff in E. lra. }
  rewrite (wrapped_after_get float_repr json_loads _ _ _ _ _ _ _ _ _ Hk Hget Hage), Hgt.
  unfold on_expired.
  erewrite bind_ok; [| apply run_lock_acquire; simpl; eassumption].
  unfold after_acquire.
  erewrite bind_raise; [| unfold lift, bg_condition; rewrite Hc, Hbg, Ht; simpl andb; cbv iota;
                          unfold py_index; rewrite Hts; reflexivity].
  unfold after_get. simpl. now rewrite <- app_assoc.
Qed.

(** X9: A fresh stored object without ['result'] makes the call raise
    [KeyError]; the function is not invoked in its place. *)
Theorem fresh_entry_without_result_raises cfg (f : pyfunction U) args kwargs (w : world σ U)
    key raw s1 d ts n :
  mangle float_repr (fname cfg f) (f_sig f) args kwargs = Ok key ->
  cs_get key (w_store w) = (Ok (Some raw), s1) ->
  json_loads raw = Some (PDict d) ->
  dict_get d "timestamp" = Some ts ->
  as_number ts = Some n ->
  dict_get d "result" = None ->
  (w_now w - num_val n <= num_val (expires cfg))%Q ->
  wrapped float_repr json_loads cfg f args kwargs w =
    (Raise (KeyError "result"), after_get w key s1).
Proof.
  intros Hk Hget Hl Hts Hn Hr Hage.
  assert (Hc : loads_or_empty json_loads (Some raw) = PDict d)
    by (unfold loads_or_empty; now rewrite Hl).
  assert (Hd : d <> []) by (intros ->; discriminate).
  rewrite (wrapped_after_get float_repr json_loads _ _ _ _ _ _ _ _ (w_now w - num_val n)%Q Hk Hget)
    by (rewrite Hc; eapply age_of_entry; eassumption).
  rewrite Hc, (truthy_entry _ _ _ Hts).
  replace (Qgt_bool (w_now w - num_val n) (num_val (expires cfg))) with false
    by (unfold Qgt_bool; symmetry; apply negb_false_iff, Qle_bool_iff, Hage).
  cbn [negb orb]. unfold lift, py_index. now rewrite Hr.
Qed.

(** *** A release that raises *)


(** *** A keyword named as a parameter of [update_cache] *)

(** X19: A call with a keyword named [f] or [lock] (the decorated function
    has a parameter of that name) that comes to the synchronous refresh
    with the lock acquired raises [TypeError] at the call of
    [update_cache]: the function is not invoked, nothing is written and
    the lock is not released.  A refresh thread started for such a call
    ends in the same way, leaving the world, and so the lock, as it found
    them. *)
Theorem keyword_clash_keeps_lock cfg (f : pyfunction U) args kwargs (w : world σ U)
    key raw s1 s2 age :
  mangle float_repr (fname cfg f) (f_sig f) args kwargs = Ok key ->
  cs_get key (w_store w) = (Ok raw, s1) ->
  age_of (loads_or_empty json_loads raw) (w_now w) = Ok age ->
  negb (truthy (loads_or_empty json_loads raw)) || Qgt_bool age (num_val (expires cfg)) = true ->
  cs_acquire (the_lock cfg f) s1 = (Ok true, s2) ->
  bg_condition cfg (loads_or_empty json_loads raw) (w_now w) = Ok false ->
  update_cache_binds kwargs = false ->
  wrapped float_repr json_loads cfg f args kwargs w =
    (Raise TypeError,
     {| w_store := s2; w_user := w_user w; w_now := w_now w;
        w_thread_slots := w_thread_slots w; w_threads := w_threads w;
        w_log := w_log w ++ [EGet key; EAcquire (the_lock cfg f)] |}) /\
  forall w' : world σ U,
    run_thread float_repr cfg f
      {| task_lock := the_lock cfg f; task_args := args; task_kwargs := kwargs |} w'
    = (Ok tt, w').
Proof.
  intros Hk Hget Hage Hexp Hacq Hbg Hc. split.
  - rewrite (wrapped_refreshes_inline float_repr json_loads _ _ _ _ _ _ _ _ _ _
               Hk Hget Hage Hexp Hacq Hbg).
    now apply update_cache_keyword_clash.
  - intros w'. unfold run_thread. cbn [task_lock task_args task_kwargs].
    now rewrite (update_cache_keyword_clash float_repr cfg f _ args kwargs w' Hc).
Qed.
End MorePaths.

(** ** The traces of an invocation *)

Section TraceFacts.
Context {σ U : Type} {cs : CacheStore σ}.
Local Abbreviation M := (Effect.M σ U).
Variable float_repr : Q -> string.
Variable json_loads : string -> option pyval.





End TraceFacts.

(** ** Calls that bind alike *)

Lemma name_in_In k names : name_in k names = true <-> In k names.
Proof.
  unfold name_in. rewrite existsb_exists. split.
  - intros (x & Hin & Heq). apply String.eqb_eq in Heq. now subst.
  - intros Hin. exists k. split; [assumption | apply String.eqb_refl].
Qed.

Lemma dict_has_app d1 d2 k : dict_has (d1 ++ d2) k = dict_has d1 k || dict_has d2 k.
Proof.
  unfold dict_has. induction d1 as [| [k' v] d1 IH]; simpl; [reflexivity |].
  destruct (String.eqb k' k); [reflexivity | exact IH].
Qed.

Lemma dict_has_combine_in names (vals : list pyval) k :
  In k names -> (length names <= length vals)%nat -> dict_has (combine names vals) k = true.
Proof.
  unfold dict_has. revert vals. induction names as [| a names IH]; intros vals Hin Hlen.
  - destruct Hin.
  - destruct vals as [| v vals]; [simpl in Hlen; lia |]. simpl.
    destruct (String.eqb a k) eqn:E; [reflexivity |].
    apply IH; [| simpl in Hlen; lia].
    destruct Hin as [-> | Hin]; [| assumption]. now rewrite String.eqb_refl in E.
Qed.

Lemma dict_has_combine_notin names (vals : list pyval) k :
  ~ In k names -> dict_has (combine names vals) k = false.
Proof.
  unfold dict_has. revert vals. induction names as [| a names IH]; intros vals Hnin.
  - reflexivity.
  - destruct vals as [| v vals]; [reflexivity |]. simpl.
    destruct (String.eqb a k) eqn:E.
    + apply String.eqb_eq in E. subst. exfalso. apply Hnin. now left.
    + apply IH. intros Hin. apply Hnin. now right.
Qed.

Lemma combine_split (names : list string) (p1 p2 : list pyval) :
  (length p1 <= length names)%nat ->
  (combine (firstn (length p1) names) p1 ++ combine (skipn (length p1) names) p2)%list
    = combine names (p1 ++ p2).
Proof.
  revert names. induction p1 as [| v p1 IH]; intros names Hlen; simpl.
  - reflexivity.
  - destruct names as [| a names]; [simpl in Hlen; lia |]. simpl.
    f_equal. apply IH. simpl in Hlen. lia.
Qed.

(** Keywords that name parameters not bound yet, each once, are appended
    in the order of the call. *)
Lemma bind_named_appends params names : forall (vals : list pyval) arg2value,
  (forall k, In k names -> In k params) ->
  NoDup names ->
  (forall k, In k names -> dict_has arg2value k = false) ->
  bind_named params (combine names vals) arg2value = Ok (arg2value ++ combine names vals)%list.
Proof.
  induction names as [| a names IH]; intros vals arg2value Hin Hnd Hfree.
  - simpl. now rewrite app_nil_r.
  - destruct vals as [| v vals]; [simpl; now rewrite app_nil_r |].
    simpl. rewrite (proj2 (name_in_In a params)) by (apply Hin; now left). simpl.
    rewrite Hfree by now left.
    apply NoDup_cons in Hnd as [Hna Hnd].
    rewrite IH; [now rewrite <- app_assoc | | assumption |].
    + intros k Hk. apply Hin. now right.
    + intros k Hk. rewrite dict_has_app, Hfree by now right. simpl.
      unfold dict_has. simpl. destruct (String.eqb a k) eqn:E; [| reflexivity].
      apply String.eqb_eq in E. subst. exfalso. now apply Hna, list_elem_of_In.
Qed.

Lemma bind_defaults_all_bound params : forall defaults arg2value,
  (forall k, In k params -> dict_has arg2value k = true) ->
  bind_defaults params defaults arg2value = arg2value.
Proof.
  induction params as [| a params IH]; intros defaults arg2value Hall; [reflexivity |].
  destruct defaults as [| dv defaults]; [reflexivity |]. simpl.
  rewrite Hall by now left. apply IH. intros k Hk. apply Hall. now right.
Qed.

Lemma bind_defaults_skips_bound pre : forall rest defaults arg2value,
  (forall k, In k pre -> dict_has arg2value k = true) ->
  bind_defaults (pre ++ rest) defaults arg2value
    = bind_defaults rest (skipn (length pre) defaults) arg2value.
Proof.
  induction pre as [| a pre IH]; intros rest defaults arg2value Hall; [reflexivity |].
  destruct defaults as [| dv defaults]; simpl.
  - now destruct rest.
  - rewrite Hall by now left. apply IH. intros k Hk. apply Hall. now right.
Qed.

Lemma bind_defaults_fills params : forall defaults arg2value,
  NoDup params ->
  (forall k, In k params -> dict_has arg2value k = false) ->
  bind_defaults params defaults arg2value = (arg2value ++ combine params defaults)%list.
Proof.
  induction params as [| a params IH]; intros defaults arg2value Hnd Hfree.
  - simpl. now rewrite app_nil_r.
  - destruct defaults as [| dv defaults]; [simpl; now rewrite app_nil_r |]. simpl.
    rewrite Hfree by now left.
    apply NoDup_cons in Hnd as [Hna Hnd].
    rewrite IH; [now rewrite <- app_assoc | assumption |].
    intros k Hk. rewrite dict_has_app, Hfree by now right. simpl.
    unfold dict_has. simpl. destruct (String.eqb a k) eqn:E; [| reflexivity].
    apply String.eqb_eq in E. subst. exfalso. now apply Hna, list_elem_of_In.
Qed.

Lemma In_firstn_in {A} n (l : list A) x : In x (firstn n l) -> In x l.
Proof. intros H. rewrite <- (firstn_skipn n l). apply in_or_app. now left. Qed.

Lemma In_skipn_in {A} n (l : list A) x : In x (skipn n l) -> In x l.
Proof. intros H. rewrite <- (firstn_skipn n l). apply in_or_app. now right. Qed.

Lemma NoDup_skipn_part {A} n (l : list A) : NoDup l -> NoDup (skipn n l).
Proof.
  intros H. rewrite <- (firstn_skipn n l) in H. now apply NoDup_app in H as (_ & _ & H).
Qed.

Lemma NoDup_skipn_not_firstn {A} n (l : list A) x :
  NoDup l -> In x (skipn n l) -> ~ In x (firstn n l).
Proof.
  intros H Hs Hf. rewrite <- (firstn_skipn n l) in H.
  apply NoDup_app in H as (_ & Hdisj & _).
  apply (Hdisj x); now apply list_elem_of_In.
Qed.

(** All parameters given by position. *)
Lemma getcallargs_positional sg (positional : list pyval) :
  length positional = length (sig_args sg) ->
  getcallargs sg positional [] = Ok (combine (sig_args sg) positional).
Proof.
  intros Hlen. unfold getcallargs. rewrite Hlen, Nat.min_id, Nat.ltb_irrefl.
  rewrite firstn_all. rewrite <- Hlen, firstn_all. reflexivity.
Qed.

Section KeyFacts.
Variable float_repr : Q -> string.

(** X2: Arguments given by keyword, in the order of the parameters, after
    the positional ones bind as the same arguments given by position do,
    and the key of the call is the same. *)
Theorem keywords_in_order_same_key fname sg (p1 p2 : list pyval) :
  NoDup (sig_args sg) ->
  (length p1 + length p2 = length (sig_args sg))%nat ->
  getcallargs sg p1 (combine (skipn (length p1) (sig_args sg)) p2)
    = Ok (combine (sig_args sg) (p1 ++ p2)) /\
  mangle float_repr fname sg p1 (combine (skipn (length p1) (sig_args sg)) p2)
    = mangle float_repr fname sg (p1 ++ p2) [].
Proof.
  intros Hnd Hlen.
  assert (Hbind : getcallargs sg p1 (combine (skipn (length p1) (sig_args sg)) p2)
                  = Ok (combine (sig_args sg) (p1 ++ p2))).
  { unfold getcallargs.
    rewrite Nat.min_l by lia. rewrite firstn_all.
    rewrite bind_named_appends.
    - rewrite combine_split by lia.
      replace (length (sig_args sg) <? length p1)%nat with false
        by (symmetry; apply Nat.ltb_ge; lia).
      destruct (length p1 <? length (sig_args sg))%nat; [| reflexivity].
      rewrite (proj2 (forallb_forall _ _)).
      + now rewrite bind_defaults_all_bound
          by (intros k Hk; apply dict_has_combine_in;
              [eapply In_skipn_in; eassumption | rewrite length_app; lia]).
      + intros k Hk. apply dict_has_combine_in;
          [eapply In_firstn_in; eassumption | rewrite length_app; lia].
    - intros k Hk. eapply In_skipn_in; eassumption.
    - now apply NoDup_skipn_part.
    - intros k Hk. apply dict_has_combine_notin. now apply NoDup_skipn_not_firstn. }
  split; [exact Hbind |].
  unfold mangle. rewrite Hbind, getcallargs_positional; [reflexivity |].
  rewrite length_app. lia.
Qed.

(** X3: Leaving the last parameters to their defaults binds as passing
    those default values by position does, and the key is the same. *)
Theorem defaults_left_out_same_key fname sg (positional : list pyval) :
  NoDup (sig_args sg) ->
  (length (sig_defaults sg) <= length (sig_args sg))%nat ->
  (length (sig_args sg) - length (sig_defaults sg) <= length positional)%nat ->
  (length positional <= length (sig_args sg))%nat ->
  let explicit :=
    skipn (length positional - (length (sig_args sg) - length (sig_defaults sg)))
          (sig_defaults sg) in
  getcallargs sg positional [] = Ok (combine (sig_args sg) (positional ++ explicit)) /\
  mangle float_repr fname sg positional []
    = mangle float_repr fname sg (positional ++ explicit) [].
Proof.
  intros Hnd Hnd_le Hreq Hmax explicit.
  set (A := sig_args sg) in *. set (D := sig_defaults sg) in *.
  set (m := length positional) in *.
  set (a := (length A - length D)%nat) in *.
  assert (Hbound : forall k, In k (firstn m A) ->
            dict_has (combine (firstn m A) positional) k = true).
  { intros k Hk. apply dict_has_combine_in; [assumption |].
    rewrite length_firstn. fold m. lia. }
  assert (Hbind : getcallargs sg positional [] = Ok (combine A (positional ++ explicit))).
  { unfold getcallargs. fold A D m a.
    rewrite Nat.min_l by lia.
    assert (Hp : firstn m positional = positional) by apply firstn_all.
    rewrite Hp. simpl bind_named. cbv iota.
    replace (length A <? m)%nat with false by (symmetry; apply Nat.ltb_ge; lia).
    destruct (m <? length A)%nat eqn:Hlt.
    - rewrite (proj2 (forallb_forall _ _)).
      + f_equal.
        assert (Hsplit : skipn a A = (firstn (m - a) (skipn a A) ++ skipn m A)%list).
        { rewrite <- (firstn_skipn (m - a) (skipn a A)) at 1.
          f_equal. rewrite skipn_skipn. f_equal. lia. }
        rewrite Hsplit, bind_defaults_skips_bound.
        * rewrite length_firstn, length_skipn, Nat.min_l by lia.
          rewrite bind_defaults_fills.
          -- subst m. apply combine_split. lia.
          -- now apply NoDup_skipn_part.
          -- intros k Hk. apply dict_has_combine_notin.
             now apply NoDup_skipn_not_firstn.
        * intros k Hk. apply Hbound.
          rewrite firstn_skipn_comm in Hk. apply In_skipn_in in Hk.
          now replace (a + (m - a))%nat with m in Hk by lia.
      + intros k Hk. apply Hbound.
        replace a with (Nat.min a m) in Hk by lia.
        rewrite <- firstn_firstn in Hk. now apply In_firstn_in in Hk.
    - apply Nat.ltb_ge in Hlt. assert (Hm : m = length A) by lia.
      subst explicit. fold A D m a. rewrite Hm, firstn_all.
      replace (length A - a)%nat with (length D) by lia.
      rewrite skipn_all, app_nil_r.
      rewrite <- (firstn_all positional) at 2. fold m. rewrite Hm.
      rewrite <- combine_firstn_l. reflexivity. }
  split; [exact Hbind |].
  unfold mangle. rewrite Hbind, getcallargs_positional; [reflexivity |].
  subst explicit. rewrite length_app, length_skipn. fold A D m a. lia.
Qed.
End KeyFacts.

(** ** Derived names, prefixes and the registry *)

Lemma string_app_assoc (a b c : string) : (a ++ b) ++ c = a ++ (b ++ c).
Proof.
  induction a as [| ch a IH]; [reflexivity |].
  change (String ch ((a ++ b) ++ c) = String ch (a ++ (b ++ c))). now rewrite IH.
Qed.

Lemma string_length_app (a b : string) :
  String.length (a ++ b) = (String.length a + String.length b)%nat.
Proof.
  induction a as [| ch a IH]; [reflexivity |].
  change (S (String.length (a ++ b)) = S (String.length a + String.length b)). now rewrite IH.
Qed.

Lemma string_app_inv_tail (s x y : string) : x ++ s = y ++ s -> x = y.
Proof.
  revert y. induction x as [| ch x IH]; intros [| ch' y] H.
  - reflexivity.
  - apply (f_equal String.length) in H. rewrite !string_length_app in H.
    simpl in H. lia.
  - apply (f_equal String.length) in H. rewrite !string_length_app in H.
    simpl in H. lia.
  - change (String ch (x ++ s) = String ch' (y ++ s)) in H.
    injection H as -> H. f_equal. now apply IH.
Qed.

Section NameFacts.
Context {σ U : Type} {cs : CacheStore σ}.
Variable float_repr : Q -> string.
Variable json_loads : string -> option pyval.

(** X12: Two functions of the same module and name decorated with different
    prefixes have different derived names, hence different locks and,
    for the same arguments, different keys; neither registration makes
    the other fail. *)
Theorem distinct_prefixes_do_not_clash cfg1 cfg2 (f1 f2 : pyfunction U)
    (decorated : gmap string bool) :
  prefix cfg1 <> prefix cfg2 ->
  f_module f1 = f_module f2 ->
  f_name f1 = f_name f2 ->
  taken decorated (derived_name cfg1 f1) = false ->
  taken decorated (derived_name cfg2 f2) = false ->
  derived_name cfg1 f1 <> derived_name cfg2 f2 /\
  lock_name (the_lock cfg1 f1) <> lock_name (the_lock cfg2 f2) /\
  (forall args kwargs k1 k2,
     f_sig f1 = f_sig f2 ->
     mangle float_repr (fname cfg1 f1) (f_sig f1) args kwargs = Ok k1 ->
     mangle float_repr (fname cfg2 f2) (f_sig f2) args kwargs = Ok k2 ->
     k1 <> k2) /\
  exists decorated1 decorated2,
    decorate (σ := σ) float_repr json_loads cfg1 f1 decorated
      = (Ok (wrapped float_repr json_loads cfg1 f1), decorated1) /\
    decorate (σ := σ) float_repr json_loads cfg2 f2 decorated1
      = (Ok (wrapped float_repr json_loads cfg2 f2), decorated2).
Proof.
  intros Hp Hm Hn Hfree1 Hfree2.
  assert (Hname : derived_name cfg1 f1 <> derived_name cfg2 f2).
  { unfold derived_name. rewrite Hm, Hn. intros H.
    apply Hp. eapply string_app_inv_tail. exact H. }
  split; [exact Hname |]. split; [| split].
  - unfold the_lock, fname. simpl. intros H. apply Hname.
    now apply (inj (String.append "__lock_")) in H.
  - intros args kwargs k1 k2 Hsig Hk1 Hk2 Heq. subst k2.
    unfold mangle in Hk1, Hk2. rewrite <- Hsig in Hk2.
    destruct (getcallargs (f_sig f1) args kwargs) as [bound | e]; [| discriminate].
    injection Hk1 as Hk1. injection Hk2 as Hk2. rewrite <- Hk1 in Hk2.
    apply (inj (String.append "@")) in Hk2.
    apply Hname. unfold fname in Hk2. symmetry. eapply string_app_inv_tail. exact Hk2.
  - exists (<[derived_name cfg1 f1 := true]> decorated),
           (<[derived_name cfg2 f2 := true]> (<[derived_name cfg1 f1 := true]> decorated)).
    split; [now apply decorate_free |].
    apply decorate_free. rewrite taken_insert, Hfree2, bool_decide_eq_false_2; auto.
Qed.

(** X13: The derived name joins prefix, module and function name with ["_"]
    and does not keep them apart: a function of module [m + "_" + x]
    under prefix [p] and a function of the same name of module [x] under
    prefix [p + "_" + m] get the same derived name, and the second
    registration is refused although the prefixes differ. *)
Theorem underscore_joins_prefix_and_module cfg1 cfg2 (f1 f2 : pyfunction U) m x
    (decorated : gmap string bool) :
  f_module f1 = m ++ "_" ++ x ->
  prefix cfg2 = prefix cfg1 ++ "_" ++ m ->
  f_module f2 = x ->
  f_name f1 = f_name f2 ->
  taken decorated (derived_name cfg1 f1) = false ->
  derived_name cfg1 f1 = derived_name cfg2 f2 /\
  decorate (σ := σ) float_repr json_loads cfg2 f2
      (snd (decorate (σ := σ) float_repr json_loads cfg1 f1 decorated))
    = (Raise CacheNameClashException,
       snd (decorate (σ := σ) float_repr json_loads cfg1 f1 decorated)).
Proof.
  intros Hm1 Hp2 Hm2 Hn Hfree.
  assert (Hname : derived_name cfg1 f1 = derived_name cfg2 f2).
  { unfold derived_name. rewrite Hm1, Hp2, Hm2, Hn.
    now rewrite !string_app_assoc. }
  split; [exact Hname |].
  rewrite (decorate_free float_repr json_loads _ _ _ Hfree). simpl snd.
  apply decorate_taken. rewrite <- Hname, taken_insert, bool_decide_eq_true_2; auto.
Qed.
End NameFacts.

(** ** Refreshing an expired entry *)

Section RefreshFacts.
Context {σ U : Type} {cs : CacheStore σ}.
Variable float_repr : Q -> string.
Variable json_loads : string -> option pyval.

(** X14: A refresh thread, started for a call whose keywords are not named
    [f] or [lock], whose computation raises writes nothing and calls
    [release] on the lock; its exception, and one that [release] may
    raise, reach no caller. *)
Theorem background_failure_is_swallowed cfg (f : pyfunction U) lk args kwargs (w : world σ U)
    bound e u' t' rr s4 :
  update_cache_binds kwargs = true ->
  getcallargs (f_sig f) args kwargs = Ok bound ->
  f_body f bound (w_user w) (w_now w) = (Raise e, u', t') ->
  cs_release lk (w_store w) = (rr, s4) ->
  run_thread float_repr cfg f
      {| task_lock := lk; task_args := args; task_kwargs := kwargs |} w =
    (Ok tt,
     {| w_store := s4; w_user := u'; w_now := t';
        w_thread_slots := w_thread_slots w; w_threads := w_threads w;
        w_log := w_log w ++ [ECall args kwargs; ERelease lk] |}).
Proof.
  intros Hc Hb Hf Hrel. unfold run_thread. simpl.
  now rewrite (update_cache_raises float_repr cfg f lk args kwargs w bound e u' t' rr s4
                 Hc Hb Hf Hrel).
Qed.

(** A thread started for a call with a keyword named [f] or [lock] ends
    at the call of [update_cache]: it invokes nothing, writes nothing and
    does not release the lock it was given. *)
Lemma run_thread_keyword_clash cfg (f : pyfunction U) lk args kwargs (w : world σ U) :
  update_cache_binds kwargs = false ->
  run_thread float_repr cfg f
      {| task_lock := lk; task_args := args; task_kwargs := kwargs |} w = (Ok tt, w).
Proof.
  intros Hc. unfold run_thread. simpl.
  now rewrite (update_cache_keyword_clash float_repr cfg f lk args kwargs w Hc).
Qed.
End RefreshFacts.

Section InMemoryRefresh.
Context {U : Type}.
Variable float_repr : Q -> string.
Variable json_loads : string -> option pyval.


End InMemoryRefresh.

(** ** The counters of [MockCache] *)

Lemma count_key_neq key : count_key key <> key.
Proof.
  unfold count_key. intros H. apply (f_equal String.length) in H.
  rewrite string_length_app in H. simpl in H. lia.
Qed.

Lemma mock_set_counted key value (d : gmap string mock_value) c :
  d !! count_key key = Some (MInt c) ->
  mock_set key value d
    = (Ok tt, <[key := MStr value]> (<[count_key key := MInt (c + 1)]> d)).
Proof. intros H. unfold mock_set. now rewrite H. Qed.

Lemma mock_set_all_counted key values : forall (d : gmap string mock_value) c,
  d !! count_key key = Some (MInt c) ->
  exists d',
    mock_set_all key values d = (Ok tt, d') /\
    d' !! count_key key = Some (MInt (c + Z.of_nat (length values))) /\
    d' !! key = match values with
                | [] => d !! key
                | _ => Some (MStr (List.last values EmptyString))
                end /\
    forall k, k <> key -> k <> count_key key -> d' !! k = d !! k.
Proof.
  induction values as [| value values IH]; intros d c Hc.
  - exists d. simpl. rewrite Z.add_0_r. auto.
  - simpl mock_set_all. rewrite (mock_set_counted _ _ _ _ Hc).
    destruct (IH (<[key := MStr value]> (<[count_key key := MInt (c + 1)]> d)) (c + 1))
      as (d' & Hrun & Hcount & Hval & Hframe).
    { rewrite lookup_insert_ne by (intros H; now apply (count_key_neq key)).
      apply lookup_insert_eq. }
    exists d'. split; [exact Hrun |]. split; [| split].
    + rewrite Hcount. f_equal. f_equal. simpl length. lia.
    + rewrite Hval. destruct values as [| v values]; [| reflexivity].
      simpl. apply lookup_insert_eq.
    + intros k Hk Hck. rewrite Hframe by assumption.
      now rewrite !lookup_insert_ne by congruence.
Qed.

(** X18: On a [MockCache] that has not seen the key, after any number of
    [set]s under that key [get_count] returns their number and the key
    holds the value set last; no other key of the store is touched apart
    from the counter of the key. *)
Theorem mock_set_counts key value values (d : gmap string mock_value) :
  d !! count_key key = None ->
  exists d',
    mock_set_all key (value :: values) d = (Ok tt, d') /\
    mock_get_count key d' = Ok (MInt (Z.of_nat (length (value :: values)))) /\
    d' !! key = Some (MStr (List.last (value :: values) EmptyString)) /\
    forall k, k <> key -> k <> count_key key -> d' !! k = d !! k.
Proof.
  intros Hnone. simpl mock_set_all. unfold mock_set. rewrite Hnone. simpl default. cbv iota.
  destruct (mock_set_all_counted key values
              (<[key := MStr value]>
                 (<[count_key key := MInt (0 + 1)]> (<[count_key key := MInt 0]> d))) 1)
    as (d' & Hrun & Hcount & Hval & Hframe).
  { rewrite lookup_insert_ne by (intros H; now apply (count_key_neq key)).
    apply lookup_insert_eq. }
  exists d'. split; [exact Hrun |]. split; [| split].
  - unfold mock_get_count. rewrite Hcount. f_equal. f_equal. simpl length. lia.
  - rewrite Hval. destruct values as [| v values]; [| reflexivity].
    simpl. apply lookup_insert_eq.
  - intros k Hk Hck. rewrite Hframe by assumption.
    now rewrite !lookup_insert_ne by congruence.
Qed.

(** A [get_count] for a key that was never set raises [KeyError]. *)
Example mock_get_count_unset key :
  mock_get_count key ∅ = Raise (KeyError (count_key key)).
Proof. reflexivity. Qed.

(** ** The further properties on concrete data *)

Lemma binding_error_stops_call_witness :
  run cfg_plain counter [int 1] [] (mem_world [] [] 100)
    = (Raise TypeError, mem_world [] [] 100).
Proof.
  apply (binding_error_stops_call float_repr_lite json_loads_lite cfg_plain counter
           [int 1] [] (mem_world [] [] 100)).
  left. simpl. lia.
Defined.

Lemma miss_refreshes_or_bypasses_witness :
  let key := call_key cfg_bg counter [] [] in
  fst (run cfg_bg counter [] [] (mem_world [(key, "{not json")] [] 100)) = Ok (int 1) /\
  calls (w_log (snd (run cfg_bg counter [] [] (mem_world [(key, "{not json")] [] 100)))) = 1%nat.
Proof.
  intros key. set (w := mem_world [(key, "{not json")] [] 100).
  assert (H := miss_refreshes_or_bypasses float_repr_lite json_loads_lite cfg_bg counter [] [] w
                 key (Some "{not json") (w_store w) true
                 (snd (cs_acquire (the_lock cfg_bg counter) (w_store w)))).
  discharge H. unfold run. rewrite H. split; vm_compute; reflexivity.
Defined.

Lemma acquire_failure_propagates_witness :
  let w := scripted_world [] (Raise (StoreError "down")) (Ok tt) 100 in
  fst (run cfg_plain counter [] [] w) = Raise (StoreError "down") /\
  calls (w_log (snd (run cfg_plain counter [] [] w))) = 0%nat.
Proof.
  intros w.
  assert (H := acquire_failure_propagates float_repr_lite json_loads_lite cfg_plain counter [] [] w
                 (call_key cfg_plain counter [] []) None (w_store w) 100%Q
                 (StoreError "down") (w_store w)).
  discharge H. unfold run. rewrite H. split; reflexivity.
Defined.

Lemma background_refresh_serves_stale_witness :
  let key := call_key cfg_bg counter [] [] in
  let w := mem_world [(key, stored (197 # 2) (int 7))] [] 100 in
  fst (run cfg_bg counter [] [] w) = Ok (int 7) /\
  w_threads (snd (run cfg_bg counter [] [] w))
    = [{| task_lock := the_lock cfg_bg counter; task_args := []; task_kwargs := [] |}] /\
  calls (w_log (snd (run cfg_bg counter [] [] w))) = 0%nat.
Proof.
  intros key w.
  assert (H := background_refresh_serves_stale float_repr_lite json_loads_lite cfg_bg counter
                 [] [] w key (stored (197 # 2) (int 7)) (w_store w)
                 (snd (cs_acquire (the_lock cfg_bg counter) (w_store w)))
                 [("timestamp", PNum (Float (197 # 2))); ("result", int 7)]
                 (PNum (Float (197 # 2))) (Float (197 # 2)) (int 7) 3%nat).
  discharge H. cbv zeta in H. unfold run. rewrite H. repeat split; reflexivity.
Defined.

Lemma thread_start_failure_releases_lock_witness :
  let key := call_key cfg_bg counter [] [] in
  let w := no_threads (mem_world [(key, stored (197 # 2) (int 7))] [] 100) in
  fst (run cfg_bg counter [] [] w) = Raise RuntimeError /\
  ms_held (w_store (snd (run cfg_bg counter [] [] w))) = ∅.
Proof.
  intros key w.
  pose (s2 := snd (cs_acquire (the_lock cfg_bg counter) (w_store w))).
  assert (H := thread_start_failure_releases_lock float_repr_lite json_loads_lite cfg_bg counter
                 [] [] w key (stored (197 # 2) (int 7)) (w_store w) s2
                 (snd (cs_release (the_lock cfg_bg counter) s2))
                 [("timestamp", PNum (Float (197 # 2))); ("result", int 7)]
                 (PNum (Float (197 # 2))) (Float (197 # 2))).
  discharge H. unfold run. rewrite H. split; vm_compute; reflexivity.
Defined.

Lemma entry_without_timestamp_keeps_lock_witness :
  let key := call_key cfg_bg counter [] [] in
  let w := mem_world [(key, only_result)] [] 100 in
  fst (run cfg_bg counter [] [] w) = Raise (KeyError "timestamp") /\
  lock_name (the_lock cfg_bg counter) ∈ ms_held (w_store (snd (run cfg_bg counter [] [] w))).
Proof.
  intros key w.
  assert (H := entry_without_timestamp_keeps_lock float_repr_lite json_loads_lite cfg_bg counter
                 [] [] w key only_result (w_store w)
                 (snd (cs_acquire (the_lock cfg_bg counter) (w_store w)))
                 [("result", int 7)]).
  discharge H. unfold run. rewrite H. split; [reflexivity |]. simpl. set_solver.
Defined.

Lemma fresh_entry_without_result_raises_witness :
  let key := call_key cfg_plain counter [] [] in
  let w := mem_world [(key, only_timestamp)] [] 100 in
  fst (run cfg_plain counter [] [] w) = Raise (KeyError "result").
Proof.
  intros key w.
  assert (H := fresh_entry_without_result_raises float_repr_lite json_loads_lite cfg_plain counter
                 [] [] w key only_timestamp (w_store w)
                 [("timestamp", PNum (Float 100))] (PNum (Float 100)) (Float 100)).
  discharge H. unfold run. now rewrite H.
Defined.


Lemma keywords_in_order_same_key_witness :
  mangle float_repr_lite "baw" baw_sig [int 1] [("b", int 2)]
    = mangle float_repr_lite "baw" baw_sig [int 1; int 2] [].
Proof.
  assert (H := keywords_in_order_same_key float_repr_lite "baw" baw_sig [int 1] [int 2]).
  assert (Hnd : NoDup (sig_args baw_sig))
    by (apply NoDup_ListNoDup; repeat (constructor; [simpl; intuition discriminate |]); constructor).
  specialize (H Hnd eq_refl). exact (proj2 H).
Defined.

Lemma defaults_left_out_same_key_witness :
  mangle float_repr_lite "baz" baz_sig [] []
    = mangle float_repr_lite "baz" baz_sig [PStr "a"] [].
Proof.
  assert (H := defaults_left_out_same_key float_repr_lite "baz" baz_sig []).
  assert (Hnd : NoDup (sig_args baz_sig))
    by (apply NoDup_ListNoDup; repeat (constructor; [simpl; intuition discriminate |]); constructor).
  specialize (H Hnd). discharge H. exact (proj2 H).
Defined.

Lemma distinct_prefixes_do_not_clash_witness :
  let cfg_a := cache EmptyString None (Some "test_prefixes_A") None None in
  let cfg_b := cache EmptyString None (Some "test_prefixes_B") None None in
  derived_name cfg_a counter <> derived_name cfg_b counter /\
  exists decorated1 decorated2,
    decorate (σ := mem_store) float_repr_lite json_loads_lite cfg_a counter ∅
      = (Ok (wrapped float_repr_lite json_loads_lite cfg_a counter), decorated1) /\
    decorate (σ := mem_store) float_repr_lite json_loads_lite cfg_b counter decorated1
      = (Ok (wrapped float_repr_lite json_loads_lite cfg_b counter), decorated2).
Proof.
  intros cfg_a cfg_b.
  assert (H := distinct_prefixes_do_not_clash (σ := mem_store) float_repr_lite json_loads_lite
                 cfg_a cfg_b counter counter ∅).
  discharge H. destruct H as (Hname & _ & _ & Hboth). split; assumption.
Defined.

Lemma underscore_joins_prefix_and_module_witness :
  let cfg_a := cache EmptyString None (Some "a") None None in
  let cfg_ab := cache EmptyString None (Some "a_b") None None in
  derived_name cfg_a (counter_in "b_c") = derived_name cfg_ab (counter_in "c") /\
  fst (decorate (σ := mem_store) float_repr_lite json_loads_lite cfg_ab (counter_in "c")
         (snd (decorate (σ := mem_store) float_repr_lite json_loads_lite cfg_a
                 (counter_in "b_c") ∅)))
    = Raise CacheNameClashException.
Proof.
  intros cfg_a cfg_ab.
  assert (H := underscore_joins_prefix_and_module (σ := mem_store) float_repr_lite json_loads_lite
                 cfg_a cfg_ab (counter_in "b_c") (counter_in "c") "b" "c" ∅).
  discharge H. destruct H as [Hname Hclash]. split; [exact Hname | now rewrite Hclash].
Defined.

Lemma background_failure_is_swallowed_witness :
  let lk := the_lock cfg_bg boom in
  let w := mem_world [] [lock_name lk] 100 in
  let t := {| task_lock := lk; task_args := []; task_kwargs := [] |} in
  fst (run_thread float_repr_lite cfg_bg boom t w) = Ok tt /\
  ms_data (w_store (snd (run_thread float_repr_lite cfg_bg boom t w))) = ∅ /\
  ms_held (w_store (snd (run_thread float_repr_lite cfg_bg boom t w))) = ∅.
Proof.
  intros lk w t.
  assert (H := background_failure_is_swallowed float_repr_lite cfg_bg boom lk [] [] w []
                 (UserError "boom") 1%nat 100%Q (Ok tt) (snd (cs_release lk (w_store w)))).
  discharge H. subst t. rewrite H. repeat split; vm_compute; reflexivity.
Defined.




Lemma keyword_clash_keeps_lock_witness :
  let kwargs := [("lock", int 1)] in
  let lk := the_lock cfg_plain guarded in
  let w := mem_world [] [] 100 in
  let t := {| task_lock := lk; task_args := []; task_kwargs := kwargs |} in
  fst (run cfg_plain guarded [] kwargs w) = Raise TypeError /\
  calls (w_log (snd (run cfg_plain guarded [] kwargs w))) = 0%nat /\
  lock_name lk ∈ ms_held (w_store (snd (run cfg_plain guarded [] kwargs w))) /\
  run_thread float_repr_lite cfg_plain guarded t (snd (run cfg_plain guarded [] kwargs w))
    = (Ok tt, snd (run cfg_plain guarded [] kwargs w)).
Proof.
  intros kwargs lk w t.
  assert (H := keyword_clash_keeps_lock float_repr_lite json_loads_lite cfg_plain guarded
                 [] kwargs w (call_key cfg_plain guarded [] kwargs) None (w_store w)
                 (snd (cs_acquire lk (w_store w))) 100%Q).
  discharge H. destruct H as [Hrun Hthread].
  unfold run. rewrite Hrun. cbn [fst snd w_log w_store].
  split; [reflexivity |]. split; [reflexivity |].
  split; [vm_compute; set_solver | apply Hthread].
Defined.

Lemma mock_set_counts_witness :
  exists d',
    mock_set_all "k" ["a"; "b"; "c"] ∅ = (Ok tt, d') /\
    mock_get_count "k" d' = Ok (MInt 3) /\
    d' !! "k" = Some (MStr "c").
Proof.
  destruct (mock_set_counts "k" "a" ["b"; "c"] ∅ (lookup_empty _))
    as (d' & Hrun & Hcount & Hval & _).
  exists d'. repeat split; assumption.
Defined.
